(** * opentrack: the SteamVR tracker and the shortcut table

    A shallow embedding of [tracker-steamvr/steamvr.cpp] and of
    [Shortcuts::reload] from [logic/shortcuts.cpp].

    The C++ code talks to the OpenVR runtime through a pointer that may be
    null, keeps a function-local static for the one-time initialisation and
    writes its results through out-parameters.  The embedding threads an
    explicit process state ([World]) through a small state monad whose only
    failure is the dereference of a null [IVRSystem] pointer.

    The headers steamvr.hpp, shortcuts.h, compat/util.hpp and
    api/plugin-api.hpp are not part of the two files: the types below have
    the members that the two files read and assign, constants of the
    headers are parameters. *)

From Stdlib Require Import ZArith List String Ascii Bool Lia Sorted.
From Stdlib Require Import Reals Ratan Lra.
Import ListNotations.

Local Open Scope string_scope.
Local Open Scope Z_scope.

Set Implicit Arguments.

(* ===================================================================== *)
(** ** Arithmetic of [float] and [double]

    The tracker multiplies and adds [float]s, widens them to [double] and
    calls [sqrt] and [atan2] on [double]s.  The operations are an interface,
    so that everything below holds for any arithmetic that implements it;
    the mixed precision of the source is kept (a product of two [float]s is
    a [float] product, a product with a widened operand is a [double]
    product). *)

Class FloatArith : Type := {
  flt : Type;                         (* float  *)
  dbl : Type;                         (* double *)
  flt_zero : flt;                     (* the value of a zero-initialised float *)
  widen : flt -> dbl;                 (* float -> double conversion *)
  flt_of_int : Z -> flt;              (* int -> float conversion *)
  dbl_of_int : Z -> dbl;              (* int -> double conversion *)
  fneg : flt -> flt;                  (* unary minus on float *)
  fmul : flt -> flt -> flt;           (* float * float *)
  dmul : dbl -> dbl -> dbl;           (* double * double *)
  dadd : dbl -> dbl -> dbl;           (* double + double *)
  ddiv : dbl -> dbl -> dbl;           (* double / double *)
  dsqrt : dbl -> dbl;                 (* sqrt(double) *)
  datan2 : dbl -> dbl -> dbl;         (* std::atan2(double, double) *)
  M_PI : dbl                          (* the constant of <cmath> *)
}.

(* ===================================================================== *)
(** ** The OpenVR data the tracker reads *)

(** [vr::ETrackedDeviceClass]. *)
Inductive ETrackedDeviceClass : Type :=
| TrackedDeviceClass_Invalid
| TrackedDeviceClass_HMD
| TrackedDeviceClass_Controller
| TrackedDeviceClass_GenericTracker
| TrackedDeviceClass_TrackingReference
| TrackedDeviceClass_DisplayRedirect.

Definition ETrackedDeviceClass_eqb (a b : ETrackedDeviceClass) : bool :=
  match a, b with
  | TrackedDeviceClass_Invalid, TrackedDeviceClass_Invalid
  | TrackedDeviceClass_HMD, TrackedDeviceClass_HMD
  | TrackedDeviceClass_Controller, TrackedDeviceClass_Controller
  | TrackedDeviceClass_GenericTracker, TrackedDeviceClass_GenericTracker
  | TrackedDeviceClass_TrackingReference, TrackedDeviceClass_TrackingReference
  | TrackedDeviceClass_DisplayRedirect, TrackedDeviceClass_DisplayRedirect => true
  | _, _ => false
  end.

(** The two string properties the enumeration asks for. *)
Inductive ETrackedDeviceProperty : Type :=
| Prop_SerialNumber_String
| Prop_ModelNumber_String.

(** [origin::TrackingUniverseSeated] is the only universe the tracker uses. *)
Inductive origin : Type :=
| TrackingUniverseSeated
| TrackingUniverseStanding
| TrackingUniverseRawAndUncalibrated.

(** [error_t] is [vr::EVRInitError], an integer code. *)
Definition error_t : Type := Z.
Definition VRInitError_None : error_t := 0.

(** [vr_t] is [vr::IVRSystem*]: null, or the one runtime of the process. *)
Inductive vr_t : Type :=
| nullptr
| IVRSystem_ptr.

Definition is_null (v : vr_t) : bool :=
  match v with nullptr => true | IVRSystem_ptr => false end.

(** [tt] of the source, [std::tuple<vr_t, error_t>]. *)
Definition tt_t : Type := (vr_t * error_t)%type.

Section Poses.
Context {FA : FloatArith}.

(** [vr::HmdMatrix34_t]: [float m[3][4]]. *)
Record HmdMatrix34_t : Type := { m : nat -> nat -> flt }.

(** [vr::HmdVector3_t]: [float v[3]]. *)
Record HmdVector3_t : Type := { v : nat -> flt }.

(** [pose_t] is [vr::TrackedDevicePose_t]. *)
Record pose_t : Type := {
  mDeviceToAbsoluteTracking : HmdMatrix34_t;
  vVelocity : HmdVector3_t;
  vAngularVelocity : HmdVector3_t;
  eTrackingResult : Z;
  bPoseIsValid : bool;
  bDeviceIsConnected : bool
}.

(** [pose_t{}]: value initialisation zeroes every member. *)
Definition pose_zero : pose_t := {|
  mDeviceToAbsoluteTracking := {| m := fun _ _ => flt_zero |};
  vVelocity := {| v := fun _ => flt_zero |};
  vAngularVelocity := {| v := fun _ => flt_zero |};
  eTrackingResult := 0;
  bPoseIsValid := false;
  bDeviceIsConnected := false
|}.

(** [device_list::maybe_pose], [std::tuple<bool, pose_t>]. *)
Definition maybe_pose : Type := (bool * pose_t)%type.

(** [device_spec] of steamvr.hpp, with the members that
    [fill_device_specs] assigns. *)
Record device_spec : Type := {
  pose : pose_t;
  model : string;
  serial : string;
  type : string;
  k : Z                                (* unsigned *)
}.

(** What the runtime answers at one instant, slot by slot. *)
Record Hardware : Type := {
  (* IVRSystem::GetTrackedDeviceClass *)
  hw_class : nat -> ETrackedDeviceClass;
  (* the entry IVRSystem::GetDeviceToAbsoluteTrackingPose writes for a slot *)
  hw_pose : origin -> nat -> pose_t;
  (* IVRSystem::GetStringTrackedDeviceProperty: the length it returns and
     the text it leaves in the buffer *)
  hw_string : nat -> ETrackedDeviceProperty -> Z * string
}.

End Poses.

(* ===================================================================== *)
(** ** What lies outside the tracker

    The OpenVR entry points that are not methods of [IVRSystem], the Qt
    functions the tracker calls and the constant of steamvr.hpp.  None of
    them is defined in the two source files; the tracker is verified for
    every implementation of them. *)

Class Extern {FA : FloatArith} : Type := {
  (* device_list::max_devices of steamvr.hpp, which is
     vr::k_unMaxTrackedDeviceCount: the number of hardware slots *)
  max_devices : nat;
  (* vr::VR_Init: the pointer it returns and the error it stores, for the
     n-th call of the process (counted from 0) *)
  VR_Init : nat -> tt_t;
  (* vr::VR_GetVRInitErrorAsSymbol: a C string or null *)
  VR_GetVRInitErrorAsSymbol : error_t -> option string;
  (* what IVRSystem::ResetSeatedZeroPose does to the runtime *)
  hw_reset_seated : Hardware -> Hardware;
  (* QString::arg(const QString&) *)
  QString_arg : string -> string -> string;
  (* QObject::tr *)
  tr : string -> string
}.

Section SteamVR.
Context {FA : FloatArith} {EX : Extern}.

(** Everything the process does that can be observed from outside: calls
    through the [IVRSystem] pointer, [qDebug] lines, message boxes and the
    [std::atexit] registration. *)
Inductive Event : Type :=
| Call_GetDeviceToAbsoluteTrackingPose (o : origin) (count : nat)
| Call_GetTrackedDeviceClass (slot : nat)
| Call_GetStringTrackedDeviceProperty (slot : nat) (p : ETrackedDeviceProperty)
| Call_ResetSeatedZeroPose
| Call_VR_Init
| AtExit_VR_Shutdown
| Debug_init_failure (e : error_t) (msg : string)
| Debug_serial_failed (slot : nat)
| Debug_model_failed (slot : nat)
| Debug_no_valid_pose (k : Z) (valid connected : bool)
| MessageBox_warning (title text : string).

(** The state of the process. *)
Record World : Type := {
  hw : Hardware;                     (* the runtime, as it answers now *)
  vr_init_t : option tt_t;           (* [static tt t] of [vr_init]; [None]: not yet initialised *)
  vr_init_calls : nat;               (* how often [vr::VR_Init] has run *)
  get_pose_once : bool;              (* [static bool once] of the [once_only] in [get_pose] *)
  trace : list Event                 (* the observable events, oldest first *)
}.

(** The process before anything of the tracker has run. *)
Definition process_start (h : Hardware) : World := {|
  hw := h;
  vr_init_t := None;
  vr_init_calls := 0;
  get_pose_once := false;
  trace := []
|}.

(** *** The monad: state, and the crash of a call through a null pointer *)

Inductive Result (A : Type) : Type :=
| Ok (a : A) (w : World)
| NullDeref (w : World).
Arguments NullDeref {A} w.

Definition M (A : Type) : Type := World -> Result A.

Definition ret {A} (a : A) : M A := fun w => Ok a w.

Definition bind {A B} (c : M A) (f : A -> M B) : M B :=
  fun w => match c w with
           | Ok a w' => f a w'
           | NullDeref w' => NullDeref w'
           end.

Notation "x <- c ;; f" := (bind c (fun x => f))
  (at level 61, c at next level, right associativity).
Notation "' pat <- c ;; f" := (bind c (fun x => match x with pat => f end))
  (at level 61, pat pattern, c at next level, right associativity).
Notation "c ;;; f" := (bind c (fun _ => f))
  (at level 61, right associativity).

Definition emit (e : Event) : M unit := fun w =>
  Ok tt {| hw := hw w; vr_init_t := vr_init_t w; vr_init_calls := vr_init_calls w;
           get_pose_once := get_pose_once w; trace := trace w ++ [e] |}.

Definition read_hw : M Hardware := fun w => Ok (hw w) w.

(** [v->...]: a member call through [v] is undefined when [v] is null. *)
Definition deref (v : vr_t) : M unit := fun w =>
  match v with
  | nullptr => NullDeref w
  | IVRSystem_ptr => Ok tt w
  end.

(** The calls through the [IVRSystem] pointer in a trace. *)
Definition is_hw_call (e : Event) : bool :=
  match e with
  | Call_GetDeviceToAbsoluteTrackingPose _ _
  | Call_GetTrackedDeviceClass _
  | Call_GetStringTrackedDeviceProperty _ _
  | Call_ResetSeatedZeroPose => true
  | _ => false
  end.

Definition hw_calls (w : World) : list Event := filter is_hw_call (trace w).

(** *** The methods of [IVRSystem] *)

(** Fills [count] entries of the caller's array. *)
Definition GetDeviceToAbsoluteTrackingPose (v : vr_t) (o : origin) (count : nat)
  : M (list pose_t) :=
  deref v ;;;
  emit (Call_GetDeviceToAbsoluteTrackingPose o count) ;;;
  h <- read_hw ;;
  ret (map (hw_pose h o) (seq 0 count)).

Definition GetTrackedDeviceClass (v : vr_t) (slot : nat) : M ETrackedDeviceClass :=
  deref v ;;;
  emit (Call_GetTrackedDeviceClass slot) ;;;
  h <- read_hw ;;
  ret (hw_class h slot).

(** Returns the length and the contents of the buffer after the call. *)
Definition GetStringTrackedDeviceProperty (v : vr_t) (slot : nat)
    (p : ETrackedDeviceProperty) : M (Z * string) :=
  deref v ;;;
  emit (Call_GetStringTrackedDeviceProperty slot p) ;;;
  h <- read_hw ;;
  ret (hw_string h slot p).

Definition ResetSeatedZeroPose (v : vr_t) : M unit :=
  deref v ;;;
  emit Call_ResetSeatedZeroPose ;;;
  fun w => Ok tt {| hw := hw_reset_seated (hw w); vr_init_t := vr_init_t w;
                    vr_init_calls := vr_init_calls w;
                    get_pose_once := get_pose_once w; trace := trace w |}.

(** *** Session: the one-time initialisation *)

(** [device_list::strerror]. *)
Definition strerror (err : error_t) : string :=
  match VR_GetVRInitErrorAsSymbol err with
  | Some str => str
  | None => "No description"
  end.

(** The call of [vr::VR_Init] itself: the pointer it returns and the
    value of [error] after it (which starts as [VRInitError_Unknown]). *)
Definition call_VR_Init : M tt_t := fun w =>
  Ok (VR_Init (vr_init_calls w))
     {| hw := hw w; vr_init_t := vr_init_t w; vr_init_calls := S (vr_init_calls w);
        get_pose_once := get_pose_once w; trace := trace w ++ [Call_VR_Init] |}.

(** [device_list::vr_init_]. *)
Definition vr_init_ : M tt_t :=
  '(v, error) <- call_VR_Init ;;
  (if is_null v
   then emit (Debug_init_failure error (strerror error))
   else emit AtExit_VR_Shutdown) ;;;
  ret (v, error).

(** [device_list::vr_init]: [static tt t = vr_init_();] runs the
    initialiser the first time control passes the declaration. *)
Definition vr_init : M tt_t := fun w =>
  match vr_init_t w with
  | Some t => Ok t w
  | None =>
      match vr_init_ w with
      | Ok t w' =>
          Ok t {| hw := hw w'; vr_init_t := Some t; vr_init_calls := vr_init_calls w';
                  get_pose_once := get_pose_once w'; trace := trace w' |}
      | NullDeref w' => NullDeref w'
      end
  end.

(** [with_vr_lock].  The mutex is recursive and the model sequential, so
    taking and releasing it leaves no mark on the state. *)
Definition with_vr_lock {R} (fun_ : vr_t -> error_t -> M R) : M R :=
  '(v, e) <- vr_init ;;
  fun_ v e.

(** *** Pose sampler *)

(** Modelled from the spec: the macro [once_only] of compat/util.hpp is
    not among the sources.  The diagnostic is emitted one time: a flag,
    [static] at the call site in [get_pose], is set before the statement
    runs and the statement is skipped when the flag is set. *)
Definition once_only_get_pose (c : M unit) : M unit := fun w =>
  if get_pose_once w then Ok tt w
  else c {| hw := hw w; vr_init_t := vr_init_t w; vr_init_calls := vr_init_calls w;
            get_pose_once := true; trace := trace w |}.

(** [device_list::get_pose]. *)
Definition get_pose (k : Z) : M maybe_pose :=
  if (k <? 0) || negb (k <? Z.of_nat max_devices)
  then ret (false, pose_zero)
  else
    with_vr_lock (fun v _ =>
      poses <- GetDeviceToAbsoluteTrackingPose v TrackingUniverseSeated max_devices ;;
      let pose := nth (Z.to_nat k) poses pose_zero in
      if bPoseIsValid pose && bDeviceIsConnected pose
      then ret (true, nth (Z.to_nat k) poses pose_zero)
      else
        once_only_get_pose
          (emit (Debug_no_valid_pose k (bPoseIsValid pose) (bDeviceIsConnected pose))) ;;;
        ret (false, pose_zero)).

(** *** Device enumerator *)

(** [QStringLiteral("<%1> %2 [%3]").arg(type).arg(model).arg(serial)]. *)
Definition to_string (spec : device_spec) : string :=
  QString_arg (QString_arg (QString_arg "<%1> %2 [%3]" (type spec)) (model spec))
              (serial spec).

(** The [switch] on the device class. *)
Definition type_of_class (c : ETrackedDeviceClass) : string :=
  match c with
  | TrackedDeviceClass_HMD => "HMD"
  | TrackedDeviceClass_Controller => "Controller"
  | _ => "Unknown"
  end.

(** One iteration of the [for] loop of [fill_device_specs], for slot [k];
    [continue] is the return of the list as it is. *)
Definition fill_slot (v : vr_t) (device_states : list pose_t) (k : nat)
    (list_ : list device_spec) : M (list device_spec) :=
  c1 <- GetTrackedDeviceClass v k ;;
  if ETrackedDeviceClass_eqb c1 TrackedDeviceClass_Invalid then ret list_ else
  c2 <- GetTrackedDeviceClass v k ;;
  if ETrackedDeviceClass_eqb c2 TrackedDeviceClass_TrackingReference then ret list_ else
  if negb (bDeviceIsConnected (nth k device_states pose_zero)) then ret list_ else
  '(len, str) <- GetStringTrackedDeviceProperty v k Prop_SerialNumber_String ;;
  if len =? 0 then emit (Debug_serial_failed k) ;;; ret list_ else
  let dev_serial := str in
  '(len, str) <- GetStringTrackedDeviceProperty v k Prop_ModelNumber_String ;;
  if len =? 0 then emit (Debug_model_failed k) ;;; ret list_ else
  c3 <- GetTrackedDeviceClass v k ;;
  let dev_type := type_of_class c3 in
  ret (list_ ++ [ {| pose := nth k device_states pose_zero;
                    model := str;
                    serial := dev_serial;
                    type := dev_type;
                    k := Z.of_nat k |} ])%list.

(** The [for] loop over the slots still to visit. *)
Fixpoint fill_slots (v : vr_t) (device_states : list pose_t) (slots : list nat)
    (list_ : list device_spec) : M (list device_spec) :=
  match slots with
  | [] => ret list_
  | k :: slots' =>
      list' <- fill_slot v device_states k list_ ;;
      fill_slots v device_states slots' list'
  end.

(** [device_list::fill_device_specs]; the out-parameter is the result. *)
Definition fill_device_specs (list_ : list device_spec) : M (list device_spec) :=
  with_vr_lock (fun v _ =>
    let list_ := @nil device_spec in
    if negb (is_null v)
    then
      device_states <-
        GetDeviceToAbsoluteTrackingPose v TrackingUniverseSeated max_devices ;;
      fill_slots v device_states (seq 0 max_devices) list_
    else ret list_).

(** [device_list]: its only data member. *)
Record device_list : Type := { device_specs : list device_spec }.

Definition refresh_device_list (d : device_list) : M device_list :=
  l <- fill_device_specs (device_specs d) ;;
  ret {| device_specs := l |}.

(** [device_list::device_list()]. *)
Definition device_list_new : M device_list :=
  refresh_device_list {| device_specs := [] |}.

Definition devices (d : device_list) : list device_spec := device_specs d.

(** *** Tracker binding *)

(** The [steamvr] object: the bound slot and the setting [s.device_serial]. *)
Record steamvr : Type := {
  device_index : Z;                  (* int *)
  s_device_serial : string
}.

(** [steamvr::steamvr()]. *)
Definition steamvr_new (setting : string) : steamvr :=
  {| device_index := -1; s_device_serial := setting |}.

(** [int(spec.k)]: the conversion of a 32-bit unsigned to [int]. *)
Definition int_of_unsigned (u : Z) : Z :=
  let r := u mod 2 ^ 32 in
  if r <? 2 ^ 31 then r else r - 2 ^ 32.

(** The range-[for] loop of [start_tracker]; [break] is the return. *)
Fixpoint select_device (serial : string) (specs : list device_spec)
    (device_index : Z) : Z :=
  match specs with
  | [] => device_index
  | spec :: specs' =>
      if (serial =? "")%string || (serial =? to_string spec)%string
      then int_of_unsigned (k spec)
      else select_device serial specs' device_index
  end.

Definition QMessageBox_warning (title text : string) : M unit :=
  emit (MessageBox_warning title text).

(** [steamvr::start_tracker]. *)
Definition start_tracker (this : steamvr) : M steamvr :=
  with_vr_lock (fun v e =>
    if is_null v
    then
      QMessageBox_warning (tr "SteamVR init error") (strerror e) ;;;
      ret this
    else
      let serial := s_device_serial this in
      d <- device_list_new ;;
      let specs := devices d in
      let sz := Z.of_nat (List.length specs) in
      if sz =? 0
      then
        QMessageBox_warning (tr "SteamVR init error") (tr "No HMD connected") ;;;
        ret this
      else
        let this := {| device_index := select_device serial specs (-1);
                       s_device_serial := s_device_serial this |} in
        if device_index this =? -1
        then
          QMessageBox_warning (tr "SteamVR init error")
                              (tr "Can't find device with that serial") ;;;
          ret this
        else ret this).

(** *** Pose transform *)

(** [steamvr::matrix_to_euler]; the three references are the result. *)
Definition matrix_to_euler (result : HmdMatrix34_t) : dbl * dbl * dbl :=
  let yaw :=
    datan2 (widen (fneg (m result 2 0)))
           (dsqrt (dadd (dmul (widen (m result 2 1)) (widen (m result 2 1)))
                        (widen (fmul (m result 2 2) (m result 2 2))))) in
  let pitch := datan2 (widen (m result 2 1)) (widen (m result 2 2)) in
  let roll := datan2 (widen (m result 1 0)) (widen (m result 0 0)) in
  (yaw, pitch, roll).

(** The indices of the output array, [enum Axis] of the plugin API. *)
Inductive Axis : Type := TX | TY | TZ | Yaw | Pitch | Roll.

Definition Axis_eqb (a b : Axis) : bool :=
  match a, b with
  | TX, TX | TY, TY | TZ, TZ | Yaw, Yaw | Pitch, Pitch | Roll, Roll => true
  | _, _ => false
  end.

(** The six [double]s behind [double* data]. *)
Definition output : Type := Axis -> dbl.

(** [data[a] = x]. *)
Definition store (data : output) (a : Axis) (x : dbl) : output :=
  fun b => if Axis_eqb a b then x else data b.

(** [steamvr::data]; the array after the call is the result. *)
Definition data (this : steamvr) (data : output) : M output :=
  if negb (device_index this =? -1)
  then
    '(ok, pose) <- get_pose (device_index this) ;;
    if ok : bool
    then
      let c := 10 in
      let result := mDeviceToAbsoluteTracking pose in
      let data := store data TX (widen (fmul (fneg (m result 0 3)) (flt_of_int c))) in
      let data := store data TY (widen (fmul (m result 1 3) (flt_of_int c))) in
      let data := store data TZ (widen (fmul (m result 2 3) (flt_of_int c))) in
      let '(yaw, pitch, roll) := matrix_to_euler result in
      let data := store data Yaw yaw in
      let data := store data Pitch pitch in
      let data := store data Roll roll in
      let r2d := ddiv (dbl_of_int 180) M_PI in
      let data := store data Yaw (dmul (data Yaw) r2d) in
      let data := store data Pitch (dmul (data Pitch) r2d) in
      let data := store data Roll (dmul (data Roll) r2d) in
      ret data
    else ret data
  else ret data.

(** [steamvr::center]; the object is returned with the result, to show
    what the call does to it. *)
Definition center (this : steamvr) : M (bool * steamvr) :=
  with_vr_lock (fun v _ =>
    if negb (is_null v)
    then ResetSeatedZeroPose v
    else ret tt) ;;;
  ret (true, this).

End SteamVR.

Arguments NullDeref {FA A} w.

(* ===================================================================== *)
(** ** The shortcut table ([logic/shortcuts.cpp])

    [Shortcuts::reload] is one function with two bodies of
    [bind_shortcut] behind [#ifdef _WIN32].  What differs between the
    builds is gathered in [Platform]; [reload] is written once over it and
    both builds are instances. *)

Module Shortcuts.

(** [key_opts]: the three settings of one binding. *)
Record key_opts : Type := {
  keycode : string;
  guid : string;
  button : Z
}.

Section Reload.

(** What a call of a handler does; [fun] of the source is
    [std::function<void(bool)>]. *)
Variable Act : Type.

Definition fun_t : Type := bool -> Act.

(** The build-dependent parts. *)
Class Platform : Type := {
  (* Shortcuts::K *)
  K : Type;
  (* [K k;] *)
  K_new : K;
  (* what exists outside the Shortcuts object: the global shortcut objects
     and the signal connections *)
  Outside : Type;
  (* Shortcuts::bind_shortcut; the key is passed by reference *)
  bind_shortcut : K -> key_opts -> bool -> Outside -> K * Outside;
  (* the lambda that [reload] stores around [fun] *)
  stored_fun : fun_t -> fun_t;
  (* the statements of [reload] after [push_back], under [#ifndef _WIN32]:
     they read the vector [keys] as [push_back] left it, and [k] *)
  after_push : list (K * fun_t * bool) -> K -> Outside -> Outside;
  (* the destruction of a [K] held by the vector that is replaced *)
  drop_K : K -> Outside -> Outside
}.

Context {P : Platform}.

(** [tt] of the source, [std::tuple<K, fun, bool>]. *)
Definition tt_t : Type := (K * fun_t * bool)%type.

(** [t_keys], [std::vector<std::tuple<key_opts, fun, bool>>]. *)
Definition t_keys : Type := list (key_opts * fun_t * bool).

(** The [Shortcuts] object and what lies outside it. *)
Record State : Type := {
  keys : list tt_t;
  outside : Outside
}.

(** [keys = std::vector<tt>();] destroys the old elements. *)
Definition drop_keys (old : list tt_t) (o : Outside) : Outside :=
  fold_left (fun o (e : tt_t) => drop_K (fst (fst e)) o) old o.

(** The body of the loop of [reload] for the element [kk = keys_[i]]. *)
Definition reload_step (s : State) (kk : key_opts * fun_t * bool) : State :=
  let '(opts, fun_, held) := kk in
  let '(k, o) := bind_shortcut K_new opts held (outside s) in
  let keys' := (keys s ++ [(k, stored_fun fun_, held)])%list in
  {| keys := keys'; outside := after_push keys' k o |}.

(** [const unsigned sz = keys_.size();] *)
Definition size_as_unsigned (keys_ : t_keys) : Z :=
  Z.of_nat (List.length keys_) mod 2 ^ 32.

(** [Shortcuts::reload].  The loop visits [keys_[0]] to [keys_[sz-1]],
    which are the first [sz] elements of [keys_]. *)
Definition reload (keys_ : t_keys) (s : State) : State :=
  let sz := size_as_unsigned keys_ in
  let s := {| keys := []; outside := drop_keys (keys s) (outside s) |} in
  fold_left reload_step (firstn (Z.to_nat sz) keys_) s.

(** The entry that [reload] stores for the element [kk] of its argument:
    the flag and the wrapped handler of [kk], and the key that
    [bind_shortcut] made from a fresh [K] and the options of [kk]. *)
Definition entry_of (kk : key_opts * fun_t * bool) (entry : tt_t) : Prop :=
  let '(opts, fun_, held) := kk in
  let '(k, f, h) := entry in
  h = held
  /\ f = stored_fun fun_
  /\ exists o : Outside, k = fst (bind_shortcut K_new opts held o).

End Reload.

Arguments K {Act Platform}.
Arguments K_new {Act Platform}.
Arguments Outside {Act Platform}.
Arguments tt_t {Act P}.
Arguments State {Act P}.
Arguments entry_of {Act P} kk entry.

(** *** The Windows build *)

Section Win32.
Variable Act : Type.

(** The members of [Key] that [bind_shortcut] assigns, each holding the
    value of the right-hand side of its assignment. *)
Record Key : Type := {
  Key_guid : string;
  Key_keycode : Z;
  Key_held : bool;
  Key_ctrl : bool;
  Key_alt : bool;
  Key_shift : bool
}.

(** [Qt::KeyboardModifier] and [Qt::Key_unknown]. *)
Definition Qt_ShiftModifier : Z := 0x02000000.
Definition Qt_ControlModifier : Z := 0x04000000.
Definition Qt_AltModifier : Z := 0x08000000.
Definition Qt_KeyboardModifierMask : Z := 0xfe000000.
Definition Qt_NoModifier : Z := 0.
Definition Qt_Key_unknown : Z := 0x01ffffff.

(** [K()], [QKeySequence::fromString(_, PortableText)] as the key code of
    the sequence, and [win_key::from_qt], which may assign its two
    reference arguments. *)
Variable Key_new : Key.
Variable QKeySequence_fromString : string -> Z.
Variable win_key_from_qt : Z -> Z -> Z -> Z * Z.

(** [x & ~Qt::KeyboardModifierMask]; on 32 bits the complement of the
    mask is [0x01ffffff]. *)
Definition without_modifiers (x : Z) : Z :=
  Z.land x (2 ^ 32 - 1 - Qt_KeyboardModifierMask).

(** [!!(x & flag)]. *)
Definition has_flag (x flag : Z) : bool := negb (Z.land x flag =? 0).

(** [Shortcuts::bind_shortcut] under [#ifdef _WIN32]. *)
Definition bind_shortcut_win32 (key : Key) (k : key_opts) (held : bool) : Key :=
  let key := Key_new in
  let idx := 0 in
  if negb (guid k =? "")%string
  then
    {| Key_guid := guid k;
       Key_keycode := without_modifiers (button k);
       Key_held := held;
       Key_ctrl := has_flag (button k) Qt_ControlModifier;
       Key_alt := has_flag (button k) Qt_AltModifier;
       Key_shift := has_flag (button k) Qt_ShiftModifier |}
  else
    let code :=
      if (keycode k =? "")%string then Qt_Key_unknown
      else QKeySequence_fromString (keycode k) in
    let mods := Qt_NoModifier in
    let '(idx, mods) :=
      if negb (code =? Qt_Key_unknown) then win_key_from_qt code idx mods
      else (idx, mods) in
    {| Key_guid := "";
       Key_keycode := idx;
       Key_held := held;
       Key_ctrl := has_flag mods Qt_ControlModifier;
       Key_alt := has_flag mods Qt_AltModifier;
       Key_shift := has_flag mods Qt_ShiftModifier |}.

#[local] Instance win32 : Platform Act := {|
  K := Key;
  K_new := Key_new;
  Outside := unit;
  bind_shortcut := fun key k held o => (bind_shortcut_win32 key k held, o);
  (* [=](bool flag) { fun(flag); } *)
  stored_fun := fun fun_ => fun flag => fun_ flag;
  (* nothing follows [push_back] under [_WIN32] *)
  after_push := fun _ _ o => o;
  drop_K := fun _ o => o
|}.

End Win32.

(** *** The other builds: [QxtGlobalShortcut] objects behind shared pointers *)

Section Unix.
Variable Act : Type.

(** A [QxtGlobalShortcut]: its key sequence and whether it is enabled. *)
Record QxtGlobalShortcut : Type := {
  shortcut : string;
  enabled : bool
}.

(** The objects alive, by address, the next address [make_shared] hands
    out, the connections to [QxtGlobalShortcut::activated], and whether
    the vector [keys] has been read outside its bounds, after which the
    behaviour of the program is undefined. *)
Record Heap : Type := {
  objects : nat -> option QxtGlobalShortcut;
  next : nat;
  connections : list (nat * (unit -> Act));
  undefined : bool
}.

(** [QxtGlobalShortcut()] before any setter has run, the text of
    [QKeySequence::UnknownKey], and [QKeySequence::fromString]. *)
Variable QxtGlobalShortcut_new : QxtGlobalShortcut.
Variable QKeySequence_UnknownKey : string.
Variable QKeySequence_fromString : string -> string.

(** Whether the [std::shared_ptr] that [bind_shortcut] is handed is the
    last one that owns the object at an address.  The copies of the
    pointer that the caller keeps are out of the sight of [Shortcuts]. *)
Variable last_owner : nat -> bool.

Definition update (h : Heap) (p : nat) (o : option QxtGlobalShortcut) : Heap :=
  {| objects := fun q => if Nat.eqb p q then o else objects h q;
     next := next h;
     connections := connections h;
     undefined := undefined h |}.

(** A setter called through a pointer to a live object. *)
Definition modify (h : Heap) (p : nat) (f : QxtGlobalShortcut -> QxtGlobalShortcut)
  : Heap :=
  match objects h p with
  | Some o => update h p (Some (f o))
  | None => h
  end.

Definition setEnabled (b : bool) (o : QxtGlobalShortcut) : QxtGlobalShortcut :=
  {| shortcut := shortcut o; enabled := b |}.

Definition setShortcut (s : string) (o : QxtGlobalShortcut) : QxtGlobalShortcut :=
  {| shortcut := s; enabled := enabled o |}.

(** The last owner lets go of the object: it is deleted, and its
    connections with it.  The elements of the vector [keys] are the last
    owners of their objects: [reload] alone fills the vector, and the
    [K k] that it copies into the vector ends with each round of its
    loop. *)
Definition release (key : option nat) (h : Heap) : Heap :=
  match key with
  | Some p =>
      {| objects := fun q => if Nat.eqb p q then None else objects h q;
         next := next h;
         connections := filter (fun c => negb (Nat.eqb (fst c) p)) (connections h);
         undefined := undefined h |}
  | None => h
  end.

(** The end of one [std::shared_ptr]: it gives up its share of the object,
    which is deleted only when no other owner is left. *)
Definition drop_reference (key : option nat) (h : Heap) : Heap :=
  match key with
  | Some p => if last_owner p then release (Some p) h else h
  | None => h
  end.

(** [Shortcuts::free_binding] under [#ifndef _WIN32]: the two setters,
    then [key.swap(tmp)] with a null [tmp], which ends at the closing
    brace with what [key] held. *)
Definition free_binding (key : option nat) (h : Heap) : option nat * Heap :=
  match key with
  | Some p =>
      let h := modify h p (setEnabled false) in
      let h := modify h p (setShortcut QKeySequence_UnknownKey) in
      let tmp : option nat := None in
      let '(key, tmp) := (tmp, key) in
      (key, drop_reference tmp h)
  | None => (key, h)
  end.

(** [std::make_shared<sh>()]. *)
Definition make_shared (h : Heap) : option nat * Heap :=
  (Some (next h),
   {| objects := fun q => if Nat.eqb (next h) q then Some QxtGlobalShortcut_new
                          else objects h q;
      next := S (next h);
      connections := connections h;
      undefined := undefined h |}).

(** [Shortcuts::bind_shortcut] under [#if !defined(_WIN32)]. *)
Definition bind_shortcut_unix (key : option nat) (k : key_opts) (held : bool)
    (h : Heap) : option nat * Heap :=
  let '(key, h) :=
    match key with
    | Some _ => free_binding key h
    | None => (key, h)
    end in
  (* the assignment lets go of what [key] held, which is nothing by now *)
  let h := drop_reference key h in
  let '(key, h) := make_shared h in
  if negb (keycode k =? "")%string
  then
    match key with
    | Some p =>
        let h := modify h p (setShortcut (QKeySequence_fromString (keycode k))) in
        let h := modify h p (setEnabled true) in
        (key, h)
    | None => (key, h)
    end
  else (key, h).

(** [const int idx = keys.size() - 1;]: the size is not zero after
    [push_back], and the conversion to [int] keeps the low 32 bits. *)
Definition last_index (keys : list (option nat * fun_t Act * bool)) : Z :=
  int_of_unsigned (Z.of_nat (List.length keys) - 1).

(** [connect(k.get(), &QxtGlobalShortcut::activated, [=]() { fn(true); })];
    the lambda holds a copy of [fn]. *)
Definition connect (k : option nat) (fn : fun_t Act) (h : Heap) : Heap :=
  match k with
  | Some p =>
      {| objects := objects h; next := next h;
         connections := (connections h ++ [(p, fun _ : unit => fn true)])%list;
         undefined := undefined h |}
  | None => h
  end.

(** The statements of [reload] under [#ifndef _WIN32]:
    [idx], [tt& kk_ = keys[idx]], [auto& fn = std::get<1>(kk_)] and the
    [connect].  A negative [idx] becomes an index beyond the end of the
    vector, and the read of [keys[idx]] is out of bounds. *)
Definition connect_activated (keys : list (option nat * fun_t Act * bool))
    (k : option nat) (h : Heap) : Heap :=
  let idx := last_index keys in
  match (if 0 <=? idx then nth_error keys (Z.to_nat idx) else None) with
  | Some kk_ =>
      let fn := snd (fst kk_) in
      connect k fn h
  | None =>
      {| objects := objects h; next := next h; connections := connections h;
         undefined := true |}
  end.

#[local] Instance unix : Platform Act := {|
  K := option nat;
  K_new := None;
  Outside := Heap;
  bind_shortcut := bind_shortcut_unix;
  (* [=](bool) { fun(true); } *)
  stored_fun := fun fun_ => fun _ => fun_ true;
  after_push := connect_activated;
  (* the vector is the last owner of the objects of its elements *)
  drop_K := release
|}.

End Unix.

(** *** The Windows build: the receiver of key events *)

Section Win32_receiver.
Variable Act : Type.

(** The clock and the timers of the keys, and [Key::should_process] of
    the header for the key at a position of the table: it reads and may
    restart that key's timer. *)
Variable Timers : Type.
Variable should_process : nat -> Key -> Timers -> bool * Timers.

(** The body of the loop of [receiver] for [keys[i]]; [continue] is the
    return of the state as it is.  The calls made so far are gathered in
    order. *)
Definition receiver_step (k : Key) (i : nat) (entry : Key * fun_t Act * bool)
    (st : list Act * Timers) : list Act * Timers :=
  let '(k_, f, _) := entry in
  if negb (Key_guid k =? Key_guid k_)%string then st else
  if negb (Key_keycode k =? Key_keycode k_) then st else
  if Key_held k_ && negb (Key_held k) then st else
  if negb (Bool.eqb (Key_alt k_) (Key_alt k)) then st else
  if negb (Bool.eqb (Key_ctrl k_) (Key_ctrl k)) then st else
  if negb (Bool.eqb (Key_shift k_) (Key_shift k)) then st else
  let '(ok, t) := should_process i k_ (snd st) in
  if negb ok then (fst st, t) else
  ((fst st ++ [f (Key_held k)])%list, t).

Fixpoint receiver_from (k : Key) (i : nat) (entries : list (Key * fun_t Act * bool))
    (st : list Act * Timers) : list Act * Timers :=
  match entries with
  | [] => st
  | entry :: entries' => receiver_from k (S i) entries' (receiver_step k i entry st)
  end.

(** [Shortcuts::receiver]: the calls of handlers it makes, in order, and
    the timers afterwards. *)
Definition receiver (k : Key) (keys : list (Key * fun_t Act * bool)) (t : Timers)
  : list Act * Timers :=
  let sz := Z.of_nat (List.length keys) mod 2 ^ 32 in
  receiver_from k 0 (firstn (Z.to_nat sz) keys) ([], t).

(** The event [k] passes the six tests of [receiver] against the bound
    key [k_]. *)
Definition key_matches (k k_ : Key) : bool :=
  (Key_guid k =? Key_guid k_)%string
  && (Key_keycode k =? Key_keycode k_)
  && negb (Key_held k_ && negb (Key_held k))
  && Bool.eqb (Key_alt k_) (Key_alt k)
  && Bool.eqb (Key_ctrl k_) (Key_ctrl k)
  && Bool.eqb (Key_shift k_) (Key_shift k).

(** The call that a matching entry receives. *)
Definition fired_by (k : Key) (keys : list (Key * fun_t Act * bool)) (a : Act) : Prop :=
  exists entry,
    In entry keys
    /\ key_matches k (fst (fst entry)) = true
    /\ a = snd (fst entry) (Key_held k).

End Win32_receiver.

End Shortcuts.

(* ===================================================================== *)
(** ** Definitions used by the statements *)

Notation "x <- c ;; f" := (bind c (fun x => f))
  (at level 61, c at next level, right associativity).
Notation "c ;;; f" := (bind c (fun _ => f))
  (at level 61, right associativity).

Section Statements.
Context {FA : FloatArith} {EX : Extern}.

(** [n] calls of [vr_init] in a row, with what each returned. *)
Fixpoint vr_init_times (n : nat) : M (list tt_t) :=
  match n with
  | O => ret []
  | S n' =>
      t <- vr_init ;;
      ts <- vr_init_times n' ;;
      ret (t :: ts)
  end.

(** How often [vr::VR_Init] occurs in a trace. *)
Definition is_VR_Init (e : Event) : bool :=
  match e with Call_VR_Init => true | _ => false end.

Definition VR_Init_events (w : World) : nat :=
  List.length (filter is_VR_Init (trace w)).

(** The wording of the enumeration contract: a slot is listed when its
    class is neither invalid nor a tracking reference, it is connected, and
    both of its strings can be fetched. *)
Definition slot_listed (h : Hardware) (slot : nat) : bool :=
  negb (ETrackedDeviceClass_eqb (hw_class h slot) TrackedDeviceClass_Invalid)
  && negb (ETrackedDeviceClass_eqb (hw_class h slot) TrackedDeviceClass_TrackingReference)
  && bDeviceIsConnected (hw_pose h TrackingUniverseSeated slot)
  && negb (fst (hw_string h slot Prop_SerialNumber_String) =? 0)
  && negb (fst (hw_string h slot Prop_ModelNumber_String) =? 0).

(** The entry of a listed slot. *)
Definition listed_spec (h : Hardware) (slot : nat) : device_spec :=
  {| pose := hw_pose h TrackingUniverseSeated slot;
     model := snd (hw_string h slot Prop_ModelNumber_String);
     serial := snd (hw_string h slot Prop_SerialNumber_String);
     type := type_of_class (hw_class h slot);
     k := Z.of_nat slot |}.

(** The pose the runtime reports for the slot [k] of [get_pose]. *)
Definition reported_pose (w : World) (k : Z) : pose_t :=
  hw_pose (hw w) TrackingUniverseSeated (Z.to_nat k).

(** The world after the first run of [vr_init]. *)
Definition after_first_init (w : World) : World :=
  let t := VR_Init (vr_init_calls w) in
  {| hw := hw w;
     vr_init_t := Some t;
     vr_init_calls := S (vr_init_calls w);
     get_pose_once := get_pose_once w;
     trace := (trace w ++ [Call_VR_Init])
              ++ [if is_null (fst t)
                  then Debug_init_failure (snd t) (strerror (snd t))
                  else AtExit_VR_Shutdown] |}.

(** The session invariant: the static is empty and [VR_Init] has not run,
    or it holds the outcome of the only run. *)
Definition session_ok (w : World) : Prop :=
  match vr_init_t w with
  | None => vr_init_calls w = 0%nat /\ VR_Init_events w = 0%nat
  | Some t => vr_init_calls w = 1%nat /\ VR_Init_events w = 1%nat /\ t = VR_Init 0
  end.

(** The world after the pose query through a good handle. *)
Definition after_pose_query (w : World) : World :=
  {| hw := hw w; vr_init_t := vr_init_t w; vr_init_calls := vr_init_calls w;
     get_pose_once := get_pose_once w;
     trace := trace w
              ++ [Call_GetDeviceToAbsoluteTrackingPose TrackingUniverseSeated max_devices] |}.

(** The message box of the last branch of [start_tracker]. *)
Definition serial_not_found : Event :=
  MessageBox_warning (tr "SteamVR init error")
                     (tr "Can't find device with that serial").

(** [180 / M_PI]. *)
Definition r2d : dbl := ddiv (dbl_of_int 180) M_PI.

(** The state a computation ends in, returned or crashed. *)
Definition result_world {A} (r : Result A) : World :=
  match r with Ok _ w => w | NullDeref w => w end.

(** A computation keeps the session invariant. *)
Definition keeps_session {A} (c : M A) : Prop :=
  forall w, session_ok w -> session_ok (result_world (c w)).

(** The operations of the tracker, to run them in any order. *)
Inductive Call : Type :=
| call_vr_init
| call_get_pose (k : Z)
| call_fill_device_specs (l : list device_spec)
| call_start_tracker (this : steamvr)
| call_data (this : steamvr) (out : output)
| call_center (this : steamvr).

Definition run_call (c : Call) : M (list tt_t) :=
  match c with
  | call_vr_init => t <- vr_init ;; ret [t]
  | call_get_pose k => get_pose k ;;; ret []
  | call_fill_device_specs l => fill_device_specs l ;;; ret []
  | call_start_tracker this => start_tracker this ;;; ret []
  | call_data this out => data this out ;;; ret []
  | call_center this => center this ;;; ret []
  end.

(** Runs the calls in order and gathers what the [vr_init]s returned. *)
Fixpoint run_calls (cs : list Call) : M (list tt_t) :=
  match cs with
  | [] => ret []
  | c :: cs' =>
      ts <- run_call c ;;
      ts' <- run_calls cs' ;;
      ret (ts ++ ts')%list
  end.

End Statements.

(** *** A concrete arithmetic and a concrete machine

    The real numbers implement the arithmetic interface (every conversion is
    the identity), with [atan2] built from [atan] by quadrant. *)

Definition atan2 (y x : R) : R :=
  if Rlt_dec 0 x then atan (y / x)
  else if Rlt_dec x 0 then
         (if Rle_dec 0 y then atan (y / x) + PI else atan (y / x) - PI)%R
  else if Rlt_dec 0 y then (PI / 2)%R
  else if Rlt_dec y 0 then (- PI / 2)%R
  else 0%R.

Definition real_arith : FloatArith := {|
  flt := R;
  dbl := R;
  flt_zero := 0%R;
  widen := fun x => x;
  flt_of_int := IZR;
  dbl_of_int := IZR;
  fneg := Ropp;
  fmul := Rmult;
  dmul := Rmult;
  dadd := Rplus;
  ddiv := Rdiv;
  dsqrt := sqrt;
  datan2 := atan2;
  M_PI := PI
|}.

(** A stand-in for [QString::arg] that is enough for the format of
    [to_string]: the first ["%1"] is replaced, or else the first ["%2"], or
    else the first ["%3"]. *)
Fixpoint replace_marker (d : ascii) (a s : string) : option string :=
  match s with
  | EmptyString => None
  | String c s' =>
      match s' with
      | String c' s'' =>
          if (Ascii.eqb c "%" && Ascii.eqb c' d)%bool
          then Some (a ++ s'')%string
          else option_map (String c) (replace_marker d a s')
      | EmptyString => None
      end
  end.

Definition simple_arg (s a : string) : string :=
  match replace_marker "1" a s with
  | Some r => r
  | None =>
      match replace_marker "2" a s with
      | Some r => r
      | None =>
          match replace_marker "3" a s with
          | Some r => r
          | None => s
          end
      end
  end.

(** A machine with sixteen slots whose runtime fails to start. *)
Definition no_runtime : @Extern real_arith :=
  @Build_Extern real_arith
    16
    (fun _ => (nullptr, 108))
    (fun _ => Some "VRInitError_Init_HmdNotFound")
    (fun h => h)
    simple_arg
    (fun s => s).

(** The same machine with a runtime that starts. *)
Definition with_runtime : @Extern real_arith :=
  @Build_Extern real_arith
    16
    (fun _ => (IVRSystem_ptr, VRInitError_None))
    (fun _ => None)
    (fun h => h)
    simple_arg
    (fun s => s).

(** The identity rotation, and the identity rotation with a translation. *)
Definition identity34 : @HmdMatrix34_t real_arith :=
  @Build_HmdMatrix34_t real_arith
    (fun i j => if Nat.eqb i j then 1%R else 0%R).

Definition translated34 (x y z : R) : @HmdMatrix34_t real_arith :=
  @Build_HmdMatrix34_t real_arith
    (fun i j =>
       if Nat.eqb j 3
       then match i with O => x | S O => y | _ => z end
       else if Nat.eqb i j then 1%R else 0%R).

Definition tracked_pose (mat : @HmdMatrix34_t real_arith) (valid : bool)
  : @pose_t real_arith :=
  @Build_pose_t real_arith mat
    (@Build_HmdVector3_t real_arith (fun _ => 0%R))
    (@Build_HmdVector3_t real_arith (fun _ => 0%R))
    200 valid true.

(** A headset in slot 0, a controller without a valid pose in slot 1 and a
    base station in slot 2; the other slots are empty. *)
Definition desk : @Hardware real_arith :=
  @Build_Hardware real_arith
    (fun slot =>
       match slot with
       | 0%nat => TrackedDeviceClass_HMD
       | 1%nat => TrackedDeviceClass_Controller
       | 2%nat => TrackedDeviceClass_TrackingReference
       | _ => TrackedDeviceClass_Invalid
       end)
    (fun _ slot =>
       match slot with
       | 0%nat => tracked_pose (translated34 1 2 3) true
       | 1%nat => tracked_pose identity34 false
       | 2%nat => tracked_pose identity34 true
       | _ => @pose_zero real_arith
       end)
    (fun slot p =>
       match slot, p with
       | 0%nat, Prop_SerialNumber_String => (12, "LHR-1234ABCD")
       | 0%nat, Prop_ModelNumber_String => (8, "Vive MV")
       | 1%nat, Prop_SerialNumber_String => (12, "LHR-FFFF0001")
       | 1%nat, Prop_ModelNumber_String => (16, "Vive Controller")
       | _, _ => (0, "")
       end).

(** The process on [desk] before the first call, after the runtime has
    started, and after the enumeration that [start_tracker] runs. *)
Definition desk_start : @World real_arith := process_start desk.

Definition desk_ready : @World real_arith :=
  @after_first_init real_arith with_runtime desk_start.

Definition desk_listed : @World real_arith :=
  match @fill_device_specs real_arith with_runtime [] desk_ready with
  | Ok _ w => w
  | NullDeref w => w
  end.

(** A tracker whose setting names the controller, and an output array
    that holds 7 everywhere. *)
Definition controller_wanted : steamvr :=
  {| device_index := -1;
     s_device_serial := "<Controller> Vive Controller [LHR-FFFF0001]" |}.

Definition sevens : @output real_arith := fun _ => 7%R.

(** Two bindings for the shortcut table, with handlers that report the
    flag they were called with, and the build with [QxtGlobalShortcut]. *)
Definition toggle : Shortcuts.fun_t bool := fun flag => flag.
Definition untoggle : Shortcuts.fun_t bool := fun flag => negb flag.

Definition two_keys : Shortcuts.t_keys bool :=
  [ ({| Shortcuts.keycode := "Ctrl+T"; Shortcuts.guid := ""; Shortcuts.button := 0 |},
     toggle, false);
    ({| Shortcuts.keycode := ""; Shortcuts.guid := ""; Shortcuts.button := 0 |},
     untoggle, true) ].

Definition qxt : Shortcuts.Platform bool :=
  Shortcuts.unix bool
    {| Shortcuts.shortcut := ""; Shortcuts.enabled := true |} "" (fun s => s)
    (fun _ => true).

(** A table that holds one binding, whose shortcut object lives at 7. *)
Definition one_binding : @Shortcuts.State bool qxt :=
  @Shortcuts.Build_State bool qxt
    [(Some 7%nat, untoggle, true)]
    {| Shortcuts.objects := fun q =>
         if Nat.eqb q 7
         then Some {| Shortcuts.shortcut := "Ctrl+U"; Shortcuts.enabled := true |}
         else None;
       Shortcuts.next := 8;
       Shortcuts.connections := [(7%nat, fun _ : unit => untoggle true)];
       Shortcuts.undefined := false |}.

(* ===================================================================== *)
(** ** Further definitions: invariants, the life of a tracker object, the
    settings dialog *)

Section More_statements.
Context {FA : FloatArith} {EX : Extern}.

(** A computation keeps the property [I] of the state, whether it returns
    or crashes. *)
Definition keeps (I : World -> Prop) {A} (c : M A) : Prop :=
  forall w, I w -> I (result_world (c w)).

(** How often [VR_Shutdown] has been handed to [std::atexit]. *)
Definition is_AtExit (e : Event) : bool :=
  match e with AtExit_VR_Shutdown => true | _ => false end.

Definition shutdown_hooks (w : World) : nat :=
  List.length (filter is_AtExit (trace w)).

(** The shutdown hook is registered when, and only when, the static of
    [vr_init] holds a handle that is not null. *)
Definition shutdown_ok (w : World) : Prop :=
  match vr_init_t w with
  | None => shutdown_hooks w = 0%nat
  | Some t => shutdown_hooks w = if is_null (fst t) then 0%nat else 1%nat
  end.

(** The static of [vr_init] holds [t]. *)
Definition static_is (t : tt_t) (w : World) : Prop := vr_init_t w = Some t.

(** The member functions a host calls on one [steamvr] object, and the
    construction of a [device_list] by the dialog in between. *)
Inductive Use : Type :=
| use_start_tracker
| use_data (out : output)
| use_center
| use_device_list.

Definition run_use (u : Use) (this : steamvr) : M steamvr :=
  match u with
  | use_start_tracker => start_tracker this
  | use_data out => data this out ;;; ret this
  | use_center => r <- center this ;; ret (snd r)
  | use_device_list => device_list_new ;;; ret this
  end.

Fixpoint run_uses (us : list Use) (this : steamvr) : M steamvr :=
  match us with
  | [] => ret this
  | u :: us' =>
      this' <- run_use u this ;;
      run_uses us' this'
  end.

(** A tracker is unbound, or the handle in the static is not null. *)
Definition bound_ok (this : steamvr) (w : World) : Prop :=
  device_index this = -1
  \/ exists e, vr_init_t w = Some (IVRSystem_ptr, e).

(** [steamvr_dialog::steamvr_dialog()], as far as the items of the combo
    box [ui.device] go: each item is its text and its data.  The data of
    the first item is [QVariant(QVariant::String)], whose string is empty.
    The set-up of the widgets, the two [connect]s and [tie_setting] are Qt
    and are left out. *)
Definition steamvr_dialog_new : M (list (string * string)) :=
  let items := @nil (string * string) in
  let items := (items ++ [("First available", "")])%list in
  list_ <- device_list_new ;;
  ret (fold_left
         (fun items spec => (items ++ [(to_string spec, to_string spec)])%list)
         (devices list_) items).

(** The message box of [start_tracker] for an empty enumeration. *)
Definition no_hmd_connected : Event :=
  MessageBox_warning (tr "SteamVR init error") (tr "No HMD connected").

End More_statements.

(** The rotation with yaw [y] about the second axis, pitch [p] about the
    first and roll [r] about the third, composed as [Rz r * Ry y * Rx p],
    with no translation. *)
Definition euler_matrix (y p r : R) : @HmdMatrix34_t real_arith :=
  @Build_HmdMatrix34_t real_arith
    (fun i j =>
       match i, j with
       | 0%nat, 0%nat => cos r * cos y
       | 0%nat, 1%nat => cos r * sin y * sin p - sin r * cos p
       | 0%nat, 2%nat => cos r * sin y * cos p + sin r * sin p
       | 1%nat, 0%nat => sin r * cos y
       | 1%nat, 1%nat => sin r * sin y * sin p + cos r * cos p
       | 1%nat, 2%nat => sin r * sin y * cos p - cos r * sin p
       | 2%nat, 0%nat => - sin y
       | 2%nat, 1%nat => cos y * sin p
       | 2%nat, 2%nat => cos y * cos p
       | _, _ => 0
       end%R).

(** A room without any device: sixteen empty slots. *)
Definition empty_room : @Hardware real_arith :=
  @Build_Hardware real_arith
    (fun _ => TrackedDeviceClass_Invalid)
    (fun _ _ => @pose_zero real_arith)
    (fun _ _ => (0, "")).

(** A tracker that was bound to slot 3 once, asked for the first device. *)
Definition stale_tracker : steamvr :=
  {| device_index := 3; s_device_serial := "" |}.

(** A tracker whose setting names the headset of [desk]. *)
Definition headset_wanted : steamvr :=
  {| device_index := -1; s_device_serial := "<HMD> Vive MV [LHR-1234ABCD]" |}.

Section Bound_keys.
Import Shortcuts.
Variable Act : Type.

(** The entry that the Windows build of [reload] stores for an element of
    its argument. *)
Definition win32_entry (Key_new : Key) (fromString : string -> Z)
    (from_qt : Z -> Z -> Z -> Z * Z) (kk : key_opts * fun_t Act * bool)
  : Key * fun_t Act * bool :=
  let '(opts, fun_, held) := kk in
  (bind_shortcut_win32 Key_new fromString from_qt Key_new opts held,
   (fun flag => fun_ flag), held).

(** The state of the shortcut object that the other builds of [reload]
    create for an element of the argument. *)
Definition unix_object (new : QxtGlobalShortcut) (fromString : string -> string)
    (kk : key_opts * fun_t Act * bool) : QxtGlobalShortcut :=
  if (keycode (fst (fst kk)) =? "")%string then new
  else {| shortcut := fromString (keycode (fst (fst kk))); enabled := true |}.

(** The entries that the other builds of [reload] store when the next free
    address is [n]. *)
Fixpoint unix_entries (n : nat) (keys_ : t_keys Act)
  : list (option nat * fun_t Act * bool) :=
  match keys_ with
  | [] => []
  | (_, fun_, held) :: keys' =>
      (Some n, (fun _ : bool => fun_ true), held) :: unix_entries (S n) keys'
  end.

(** The connections that the same builds of [reload] make: the object of
    each element, to a call of the element's handler with [true]. *)
Fixpoint unix_connections (n : nat) (keys_ : t_keys Act)
  : list (nat * (unit -> Act)) :=
  match keys_ with
  | [] => []
  | (_, fun_, _) :: keys' =>
      (n, (fun _ : unit => fun_ true)) :: unix_connections (S n) keys'
  end.

End Bound_keys.

(** A key event and a table for the Windows build: Ctrl+F9 pressed. *)
Definition ctrl_f9 : Shortcuts.Key :=
  {| Shortcuts.Key_guid := ""; Shortcuts.Key_keycode := 0x43;
     Shortcuts.Key_held := true; Shortcuts.Key_ctrl := true;
     Shortcuts.Key_alt := false; Shortcuts.Key_shift := false |}.

Definition plain_f9 : Shortcuts.Key :=
  {| Shortcuts.Key_guid := ""; Shortcuts.Key_keycode := 0x43;
     Shortcuts.Key_held := true; Shortcuts.Key_ctrl := false;
     Shortcuts.Key_alt := false; Shortcuts.Key_shift := false |}.

Definition f9_table : list (Shortcuts.Key * Shortcuts.fun_t bool * bool) :=
  [ (plain_f9, toggle, true) ].

(** A joystick binding for the Windows build, the event of that button
    with Ctrl held, and stand-ins for [K()], [QKeySequence::fromString] and
    [win_key::from_qt]. *)
Definition key_zero : Shortcuts.Key :=
  {| Shortcuts.Key_guid := ""; Shortcuts.Key_keycode := 0;
     Shortcuts.Key_held := true; Shortcuts.Key_ctrl := false;
     Shortcuts.Key_alt := false; Shortcuts.Key_shift := false |}.

Definition joy_keys : Shortcuts.t_keys bool :=
  [ ({| Shortcuts.keycode := ""; Shortcuts.guid := "joy0";
        Shortcuts.button := 0x04000005 |}, toggle, true);
    ({| Shortcuts.keycode := ""; Shortcuts.guid := "joy0";
        Shortcuts.button := 0x00000005 |}, untoggle, true) ].

Definition joy_event : Shortcuts.Key :=
  {| Shortcuts.Key_guid := "joy0"; Shortcuts.Key_keycode := 5;
     Shortcuts.Key_held := true; Shortcuts.Key_ctrl := true;
     Shortcuts.Key_alt := false; Shortcuts.Key_shift := false |}.

Definition always_process (i : nat) (key : Shortcuts.Key) (t : unit) : bool * unit :=
  (true, t).

Definition windows : Shortcuts.Platform bool :=
  Shortcuts.win32 bool key_zero (fun _ => 0) (fun _ idx mods => (idx, mods)).

(** The items of the dialog opened on [desk], and the state it leaves. *)
Definition desk_dialog : list (string * string) * @World real_arith :=
  match @steamvr_dialog_new real_arith with_runtime desk_start with
  | Ok items w => (items, w)
  | NullDeref w => ([], w)
  end.

(** The key of [one_binding], bound anew to Ctrl+T, when the key is the
    last owner of the object at 7. *)
Definition rebound : option nat * Shortcuts.Heap bool :=
  Shortcuts.bind_shortcut_unix
    {| Shortcuts.shortcut := ""; Shortcuts.enabled := true |} "" (fun s => s)
    (fun _ => true)
    (Some 7%nat)
    {| Shortcuts.keycode := "Ctrl+T"; Shortcuts.guid := ""; Shortcuts.button := 0 |}
    false (Shortcuts.outside one_binding).

(** The same when the caller holds a second pointer to the object at 7. *)
Definition rebound_shared : option nat * Shortcuts.Heap bool :=
  Shortcuts.bind_shortcut_unix
    {| Shortcuts.shortcut := ""; Shortcuts.enabled := true |} "" (fun s => s)
    (fun q => negb (Nat.eqb q 7))
    (Some 7%nat)
    {| Shortcuts.keycode := "Ctrl+T"; Shortcuts.guid := ""; Shortcuts.button := 0 |}
    false (Shortcuts.outside one_binding).

(* ===================================================================== *)
(** ** Session: facts about the one-time initialisation *)

Unset Implicit Arguments.

Section Session_facts.
Context {FA : FloatArith} {EX : Extern}.

Lemma vr_init_cached (w : World) (t : tt_t) :
  vr_init_t w = Some t -> vr_init w = Ok t w.
Proof.
  intros H. unfold vr_init. rewrite H. reflexivity.
Qed.

Lemma vr_init_first (w : World) :
  vr_init_t w = None ->
  vr_init w = Ok (VR_Init (vr_init_calls w)) (after_first_init w).
Proof.
  intros H. unfold vr_init, vr_init_, call_VR_Init, bind, after_first_init.
  rewrite H. cbn.
  destruct (VR_Init (vr_init_calls w)) as [v e]. cbn.
  destruct v; reflexivity.
Qed.

(** [vr_init] always returns; it leaves the runtime and the [once_only]
    flag alone and the static holds what it returned. *)
Lemma vr_init_total (w : World) :
  exists t w',
    vr_init w = Ok t w' /\ hw w' = hw w /\ vr_init_t w' = Some t
    /\ get_pose_once w' = get_pose_once w
    /\ hw_calls w' = hw_calls w.
Proof.
  destruct (vr_init_t w) as [t|] eqn:E.
  - exists t, w. rewrite (vr_init_cached _ _ E). auto.
  - exists (VR_Init (vr_init_calls w)), (after_first_init w).
    rewrite (vr_init_first _ E). repeat split.
    unfold hw_calls, after_first_init. cbn.
    rewrite !filter_app. cbn.
    destruct (is_null (fst (VR_Init (vr_init_calls w)))); cbn;
      rewrite !app_nil_r; reflexivity.
Qed.

(** Once [vr_init] has returned [t] it returns [t] again, without a step. *)
Lemma vr_init_again (w w1 : World) (t : tt_t) :
  vr_init w = Ok t w1 -> vr_init w1 = Ok t w1.
Proof.
  intros H. apply vr_init_cached.
  destruct (vr_init_t w) as [t0|] eqn:E.
  - rewrite (vr_init_cached _ _ E) in H. injection H as <- <-. exact E.
  - rewrite (vr_init_first _ E) in H. injection H as <- <-. reflexivity.
Qed.

Lemma vr_init_hw (w w1 : World) (t : tt_t) :
  vr_init w = Ok t w1 -> hw w1 = hw w.
Proof.
  intros H. destruct (vr_init_total w) as (t' & w' & H' & Hh & _).
  rewrite H in H'. injection H' as -> ->. exact Hh.
Qed.

Lemma session_ok_start (h : Hardware) : session_ok (process_start h).
Proof. split; reflexivity. Qed.

Lemma vr_init_session_ok (w w1 : World) (t : tt_t) :
  session_ok w -> vr_init w = Ok t w1 -> session_ok w1 /\ t = VR_Init 0.
Proof.
  unfold session_ok. intros Hok H.
  destruct (vr_init_t w) as [t0|] eqn:E.
  - rewrite (vr_init_cached _ _ E) in H. injection H as <- <-.
    rewrite E. destruct Hok as (? & ? & ?). auto.
  - rewrite (vr_init_first _ E) in H. injection H as <- <-.
    destruct Hok as [Hc He]. cbn. rewrite Hc. repeat split.
    unfold VR_Init_events in *. cbn. rewrite !filter_app, !length_app, He. cbn.
    destruct (is_null (fst (VR_Init 0))); reflexivity.
Qed.

Lemma vr_init_times_ok (n : nat) (w : World) :
  session_ok w ->
  exists w', vr_init_times n w = Ok (repeat (VR_Init 0) n) w'
             /\ session_ok w'
             /\ (vr_init_calls w' = if Nat.eqb n 0 then vr_init_calls w else 1%nat).
Proof.
  revert w. induction n as [|n IH]; intros w Hok.
  - exists w. cbn. auto.
  - destruct (vr_init_total w) as (t & w1 & H1 & _).
    destruct (vr_init_session_ok _ _ _ Hok H1) as [Hok1 ->].
    destruct (IH w1 Hok1) as (w2 & H2 & Hok2 & Hc).
    exists w2. cbn. unfold bind. rewrite H1, H2. cbn. repeat split; auto.
    destruct n; cbn in Hc; [|exact Hc].
    rewrite Hc. unfold session_ok in Hok1.
    destruct (vr_init_total w) as (t' & w1' & H1' & _ & Hs & _).
    rewrite H1 in H1'. injection H1' as <- <-. rewrite Hs in Hok1. tauto.
Qed.

(** C2.  Any number of calls of [vr_init] in a process that starts fresh:
    every call returns the outcome of the first run of [vr::VR_Init],
    whether that run succeeded or failed, and [vr::VR_Init] has run at most
    once (once exactly when there was a call). *)
Theorem vr_init_runs_VR_Init_at_most_once (h : Hardware) (n : nat) :
  exists w',
    vr_init_times n (process_start h) = Ok (repeat (VR_Init 0) n) w'
    /\ vr_init_calls w' = (if Nat.eqb n 0 then 0 else 1)%nat
    /\ VR_Init_events w' = vr_init_calls w'
    /\ (vr_init_calls w' <= 1)%nat.
Proof.
  destruct (vr_init_times_ok n _ (session_ok_start h)) as (w' & Hrun & Hok & Hc).
  exists w'. split; [exact Hrun|]. split; [exact Hc|].
  unfold session_ok in Hok.
  destruct (vr_init_t w') as [t|].
  - destruct Hok as (Hc1 & He & _). rewrite Hc1, He. split; [reflexivity | lia].
  - destruct Hok as (Hc0 & He). rewrite Hc0, He. split; [reflexivity | lia].
Qed.

End Session_facts.

(* ===================================================================== *)
(** ** Pose sampler *)

Section Pose_sampler.
Context {FA : FloatArith} {EX : Extern}.

Lemma nth_poses (h : Hardware) (o : origin) (n i : nat) :
  (i < n)%nat ->
  nth i (map (hw_pose h o) (seq 0 n)) pose_zero = hw_pose h o i.
Proof.
  intros Hi.
  rewrite (nth_indep _ pose_zero (hw_pose h o 0%nat))
    by (rewrite length_map, length_seq; exact Hi).
  rewrite map_nth, seq_nth by exact Hi. reflexivity.
Qed.

Lemma get_pose_out_of_range (k : Z) (w : World) :
  k < 0 \/ Z.of_nat max_devices <= k ->
  get_pose k w = Ok (false, pose_zero) w.
Proof.
  intros H. unfold get_pose.
  destruct (k <? 0) eqn:E0; [reflexivity|].
  destruct (k <? Z.of_nat max_devices) eqn:E1; [|reflexivity].
  apply Z.ltb_ge in E0. apply Z.ltb_lt in E1. lia.
Qed.

Lemma get_pose_range_test (k : Z) :
  0 <= k < Z.of_nat max_devices ->
  (k <? 0) || negb (k <? Z.of_nat max_devices) = false.
Proof.
  intros [H0 H1].
  apply Z.ltb_ge in H0. apply Z.ltb_lt in H1. rewrite H0, H1. reflexivity.
Qed.

(** With a null handle the sampler reaches the call through the pointer. *)
Lemma get_pose_null (k : Z) (w w1 : World) (e : error_t) :
  0 <= k < Z.of_nat max_devices ->
  vr_init w = Ok (nullptr, e) w1 ->
  get_pose k w = NullDeref w1.
Proof.
  intros Hk Hinit. unfold get_pose. rewrite (get_pose_range_test k Hk).
  unfold with_vr_lock, bind. rewrite Hinit. reflexivity.
Qed.

Lemma get_pose_good_handle (k : Z) (w w1 : World) (e : error_t) :
  0 <= k < Z.of_nat max_devices ->
  vr_init w = Ok (IVRSystem_ptr, e) w1 ->
  let p := reported_pose w k in
  if bPoseIsValid p && bDeviceIsConnected p
  then get_pose k w = Ok (true, p) (after_pose_query w1)
  else exists w', get_pose k w = Ok (false, pose_zero) w'.
Proof.
  intros Hk Hinit p. unfold get_pose. rewrite (get_pose_range_test k Hk).
  unfold with_vr_lock, bind. rewrite Hinit. cbn.
  assert (Hn : nth (Z.to_nat k) (map (hw_pose (hw w1) TrackingUniverseSeated)
                                     (seq 0 max_devices)) pose_zero = p).
  { rewrite nth_poses by lia. unfold p, reported_pose.
    rewrite (vr_init_hw _ _ _ Hinit). reflexivity. }
  rewrite Hn.
  destruct (bPoseIsValid p && bDeviceIsConnected p).
  - reflexivity.
  - unfold once_only_get_pose. cbn.
    destruct (get_pose_once w1); cbn; eexists; reflexivity.
Qed.

(** C1.  On the code: for an index in range, a null handle is used for
    [GetDeviceToAbsoluteTrackingPose] and the call does not return; the
    sampler has no test of the handle. *)
Theorem get_pose_dereferences_null_handle (k : Z) (w w1 : World) (e : error_t) :
  0 <= k < Z.of_nat max_devices ->
  vr_init w = Ok (nullptr, e) w1 ->
  get_pose k w = NullDeref w1
  /\ forall r w', get_pose k w <> Ok r w'.
Proof.
  intros Hk Hinit. rewrite (get_pose_null k w w1 e Hk Hinit).
  split; [reflexivity | discriminate].
Qed.

(** C3.  An index below 0 or not below [max_devices] gives
    [(false, pose_t{})] and leaves the whole state as it was: no
    initialisation, no call through the handle.  For an index in range and
    a handle that is not null the call returns, and the flag it returns is
    true exactly when the runtime reports the slot's pose as valid and the
    device as connected; a pose returned as valid is the reported one. *)
Theorem get_pose_valid_iff_flags (k : Z) (w : World) :
  (k < 0 \/ Z.of_nat max_devices <= k ->
   get_pose k w = Ok (false, pose_zero) w)
  /\
  (0 <= k < Z.of_nat max_devices ->
   forall e w1, vr_init w = Ok (IVRSystem_ptr, e) w1 ->
   exists ok p w',
     get_pose k w = Ok (ok, p) w'
     /\ (ok = true <->
         bPoseIsValid (reported_pose w k) = true
         /\ bDeviceIsConnected (reported_pose w k) = true)
     /\ (ok = true -> p = reported_pose w k)).
Proof.
  split.
  - apply get_pose_out_of_range.
  - intros Hk e w1 Hinit.
    pose proof (get_pose_good_handle k w w1 e Hk Hinit) as H. cbn zeta in H.
    destruct (bPoseIsValid (reported_pose w k)) eqn:Ev;
      destruct (bDeviceIsConnected (reported_pose w k)) eqn:Ec; cbn in H.
    + exists true, (reported_pose w k), (after_pose_query w1). tauto.
    + destruct H as [w' H]. exists false, pose_zero, w'.
      split; [exact H|]. split; [|discriminate].
      split; [discriminate | intros [_ ?]; discriminate].
    + destruct H as [w' H]. exists false, pose_zero, w'.
      split; [exact H|]. split; [|discriminate].
      split; [discriminate | intros [? _]; discriminate].
    + destruct H as [w' H]. exists false, pose_zero, w'.
      split; [exact H|]. split; [|discriminate].
      split; [discriminate | intros [? _]; discriminate].
Qed.

(** C9.  Whenever [get_pose] returns with the flag false, the pose that
    comes with it is [pose_t{}]. *)
Theorem get_pose_invalid_is_zero (k : Z) (w w' : World) (p : pose_t) :
  get_pose k w = Ok (false, p) w' -> p = pose_zero.
Proof.
  intros H.
  destruct (Z_lt_dec k 0) as [Hneg|Hnn].
  { rewrite get_pose_out_of_range in H by lia. congruence. }
  destruct (Z_le_dec (Z.of_nat max_devices) k) as [Hbig|Hsmall].
  { rewrite get_pose_out_of_range in H by lia. congruence. }
  assert (Hk : 0 <= k < Z.of_nat max_devices) by lia.
  destruct (vr_init_total w) as ([vh e] & w1 & Hinit & _).
  destruct vh.
  - rewrite (get_pose_null k w w1 e Hk Hinit) in H. discriminate.
  - pose proof (get_pose_good_handle k w w1 e Hk Hinit) as G. cbn zeta in G.
    destruct (bPoseIsValid (reported_pose w k) && bDeviceIsConnected (reported_pose w k)).
    + rewrite G in H. discriminate.
    + destruct G as [w2 G]. rewrite G in H. congruence.
Qed.

End Pose_sampler.

(* ===================================================================== *)
(** ** Device enumerator *)

Section Enumerator.
Context {FA : FloatArith} {EX : Extern}.

Lemma fill_slot_spec (states : list pose_t) (k n : nat) (acc : list device_spec)
    (w : World) :
  (k < n)%nat ->
  states = map (hw_pose (hw w) TrackingUniverseSeated) (seq 0 n) ->
  exists w',
    fill_slot IVRSystem_ptr states k acc w
    = Ok (if slot_listed (hw w) k then acc ++ [listed_spec (hw w) k] else acc)%list w'
    /\ hw w' = hw w.
Proof.
  intros Hk ->. unfold fill_slot, slot_listed, listed_spec.
  unfold bind, GetTrackedDeviceClass, GetStringTrackedDeviceProperty, bind, deref,
    emit, read_hw, ret.
  cbn.
  rewrite nth_poses by exact Hk.
  destruct (ETrackedDeviceClass_eqb (hw_class (hw w) k) TrackedDeviceClass_Invalid); cbn.
  { eexists; split; reflexivity. }
  destruct (ETrackedDeviceClass_eqb (hw_class (hw w) k) TrackedDeviceClass_TrackingReference); cbn.
  { eexists; split; reflexivity. }
  destruct (bDeviceIsConnected (hw_pose (hw w) TrackingUniverseSeated k)); cbn.
  2:{ eexists; split; reflexivity. }
  destruct (hw_string (hw w) k Prop_SerialNumber_String) as [len1 s1]; cbn.
  destruct (len1 =? 0); cbn.
  { eexists; split; reflexivity. }
  destruct (hw_string (hw w) k Prop_ModelNumber_String) as [len2 s2]; cbn.
  destruct (len2 =? 0); cbn.
  { eexists; split; reflexivity. }
  eexists; split; reflexivity.
Qed.

Lemma fill_slots_spec (states : list pose_t) (n : nat) (slots : list nat) :
  Forall (fun slot => (slot < n)%nat) slots ->
  forall (acc : list device_spec) (w : World),
  states = map (hw_pose (hw w) TrackingUniverseSeated) (seq 0 n) ->
  exists w',
    fill_slots IVRSystem_ptr states slots acc w
    = Ok (acc ++ map (listed_spec (hw w)) (filter (slot_listed (hw w)) slots))%list w'
    /\ hw w' = hw w.
Proof.
  induction 1 as [|slot slots Hslot _ IH]; intros acc w Hst.
  - exists w. cbn. rewrite app_nil_r. split; reflexivity.
  - destruct (fill_slot_spec states slot n acc w Hslot Hst) as (w1 & H1 & Hh1).
    assert (Hst1 : states = map (hw_pose (hw w1) TrackingUniverseSeated) (seq 0 n))
      by (rewrite Hh1; exact Hst).
    destruct (IH (if slot_listed (hw w) slot
                  then (acc ++ [listed_spec (hw w) slot])%list else acc) w1 Hst1)
      as (w2 & H2 & Hh2).
    exists w2. split; [|congruence].
    cbn [fill_slots]. unfold bind. rewrite H1, H2, Hh1. f_equal.
    cbn [filter]. destruct (slot_listed (hw w) slot); cbn [map].
    + rewrite <- app_assoc. reflexivity.
    + reflexivity.
Qed.

Lemma seq_below (n : nat) : Forall (fun slot => (slot < n)%nat) (seq 0 n).
Proof.
  apply Forall_forall. intros x Hx. apply in_seq in Hx. lia.
Qed.

Lemma listed_slots_ascending (f : nat -> bool) (a n : nat) :
  StronglySorted Z.lt (map Z.of_nat (filter f (seq a n))).
Proof.
  revert a. induction n as [|n IH]; intros a; cbn.
  - constructor.
  - destruct (f a); cbn; [|apply IH].
    constructor; [apply IH|].
    apply Forall_forall. intros z Hz.
    apply in_map_iff in Hz. destruct Hz as (x & <- & Hx).
    apply filter_In in Hx. destruct Hx as [Hx _].
    apply in_seq in Hx. lia.
Qed.

Lemma k_of_listed (h : Hardware) (slots : list nat) :
  map k (map (listed_spec h) slots) = map Z.of_nat slots.
Proof.
  rewrite map_map. reflexivity.
Qed.

(** Without a runtime the enumeration is empty. *)
Lemma fill_device_specs_null (l0 : list device_spec) (w w1 : World) (e : error_t) :
  vr_init w = Ok (nullptr, e) w1 ->
  fill_device_specs l0 w = Ok [] w1.
Proof.
  intros Hinit. unfold fill_device_specs, with_vr_lock, bind.
  rewrite Hinit. reflexivity.
Qed.

Lemma fill_device_specs_good (l0 : list device_spec) (w w1 : World) (e : error_t) :
  vr_init w = Ok (IVRSystem_ptr, e) w1 ->
  exists w',
    fill_device_specs l0 w
    = Ok (map (listed_spec (hw w)) (filter (slot_listed (hw w)) (seq 0 max_devices))) w'
    /\ hw w' = hw w.
Proof.
  intros Hinit. unfold fill_device_specs, with_vr_lock, bind.
  rewrite Hinit. cbn.
  set (w2 := {| hw := hw w1 |}).
  destruct (fill_slots_spec
              (map (hw_pose (hw w1) TrackingUniverseSeated) (seq 0 max_devices))
              max_devices (seq 0 max_devices) (seq_below _) [] w2 eq_refl)
    as (w3 & H3 & Hh3).
  exists w3. rewrite H3. cbn. rewrite (vr_init_hw _ _ _ Hinit).
  split; [reflexivity|].
  rewrite Hh3. apply (vr_init_hw _ _ _ Hinit).
Qed.

(** C4.  Through a handle that is not null, and whatever the runtime
    reports, the enumeration returns the entries of exactly the slots below
    [max_devices] whose class is neither invalid nor a tracking reference,
    which are connected and whose serial and model strings both came back
    with a length other than 0; a slot that fails a test is left out and
    the later slots are still visited.  The entries are in ascending order
    of their slot. *)
Theorem fill_device_specs_lists_exactly (l0 : list device_spec) (w w1 : World)
    (e : error_t) :
  vr_init w = Ok (IVRSystem_ptr, e) w1 ->
  exists l w',
    fill_device_specs l0 w = Ok l w'
    /\ l = map (listed_spec (hw w)) (filter (slot_listed (hw w)) (seq 0 max_devices))
    /\ (forall slot : nat,
          In (Z.of_nat slot) (map k l) <->
          (slot < max_devices)%nat /\ slot_listed (hw w) slot = true)
    /\ StronglySorted Z.lt (map k l).
Proof.
  intros Hinit.
  destruct (fill_device_specs_good l0 w w1 e Hinit) as (w' & Hrun & _).
  eexists; exists w'. split; [exact Hrun|]. split; [reflexivity|].
  rewrite k_of_listed. split.
  - intros slot. rewrite in_map_iff. split.
    + intros (x & Hx & Hin). apply Nat2Z.inj in Hx. subst x.
      apply filter_In in Hin. destruct Hin as [Hin Hl].
      apply in_seq in Hin. split; [lia | exact Hl].
    + intros [Hlt Hl]. exists slot. split; [reflexivity|].
      apply filter_In. split; [apply in_seq; lia | exact Hl].
  - apply listed_slots_ascending.
Qed.

End Enumerator.

(* ===================================================================== *)
(** ** Tracker binding *)

Section Tracker_binding.
Context {FA : FloatArith} {EX : Extern}.

Lemma select_device_empty_serial (first : device_spec) (rest : list device_spec)
    (i : Z) :
  select_device "" (first :: rest) i = int_of_unsigned (k first).
Proof. reflexivity. Qed.

Lemma select_device_no_match (serial : string) (specs : list device_spec) (i : Z) :
  serial <> "" ->
  Forall (fun x => to_string x <> serial) specs ->
  select_device serial specs i = i.
Proof.
  intros Hne. induction 1 as [|x specs Hx _ IH]; cbn; [reflexivity|].
  apply String.eqb_neq in Hne. rewrite Hne. cbn.
  assert (Hx' : (serial =? to_string x)%string = false)
    by (apply String.eqb_neq; congruence).
  rewrite Hx'. exact IH.
Qed.

Lemma select_device_first_match (serial : string) (pre post : list device_spec)
    (d : device_spec) (i : Z) :
  serial <> "" ->
  Forall (fun x => to_string x <> serial) pre ->
  to_string d = serial ->
  select_device serial (pre ++ d :: post) i = int_of_unsigned (k d).
Proof.
  intros Hne Hpre Hd. apply String.eqb_neq in Hne.
  induction Hpre as [|x pre Hx _ IH]; cbn; rewrite Hne; cbn.
  - rewrite <- Hd, String.eqb_refl. reflexivity.
  - assert (Hx' : (serial =? to_string x)%string = false)
      by (apply String.eqb_neq; congruence).
    rewrite Hx'. exact IH.
Qed.

(** [start_tracker] up to the selection, for a handle that is not null and
    an enumeration that is not empty. *)
Lemma start_tracker_selecting (this : steamvr) (w w1 w2 : World) (e : error_t)
    (specs : list device_spec) :
  vr_init w = Ok (IVRSystem_ptr, e) w1 ->
  fill_device_specs [] w1 = Ok specs w2 ->
  specs <> [] ->
  let i := select_device (s_device_serial this) specs (-1) in
  let this' := {| device_index := i; s_device_serial := s_device_serial this |} in
  start_tracker this w
  = if i =? -1
    then Ok this' {| hw := hw w2; vr_init_t := vr_init_t w2;
                     vr_init_calls := vr_init_calls w2;
                     get_pose_once := get_pose_once w2;
                     trace := trace w2 ++ [serial_not_found] |}
    else Ok this' w2.
Proof.
  intros Hinit Hfill Hne i this'.
  unfold start_tracker, with_vr_lock, bind. rewrite Hinit. cbn.
  unfold device_list_new, refresh_device_list, bind. cbn.
  rewrite Hfill. cbn.
  destruct specs as [|first rest]; [congruence|].
  cbn [List.length]. rewrite Nat2Z.inj_succ.
  destruct (Z.succ (Z.of_nat (List.length rest)) =? 0) eqn:E.
  { apply Z.eqb_eq in E. lia. }
  fold i. destruct (i =? -1); reflexivity.
Qed.

(** C5.  The handle is not null and the enumeration [specs] that
    [start_tracker] obtains is not empty.  With an empty serial the tracker
    is bound to the first entry of [specs]; with another serial it is bound
    to the first entry whose [to_string] is the serial; when no entry has
    that text, [device_index] is -1 and the last thing that happened is the
    message box that says so.  Binding stores [int(spec.k)]. *)
Theorem start_tracker_binds (this : steamvr) (w w1 w2 : World) (e : error_t)
    (specs : list device_spec) :
  vr_init w = Ok (IVRSystem_ptr, e) w1 ->
  fill_device_specs [] w1 = Ok specs w2 ->
  specs <> [] ->
  exists this' w',
    start_tracker this w = Ok this' w'
    /\ (s_device_serial this = "" ->
        forall first rest, specs = first :: rest ->
        device_index this' = int_of_unsigned (k first))
    /\ (s_device_serial this <> "" ->
        forall pre d post, specs = (pre ++ d :: post)%list ->
        Forall (fun x => to_string x <> s_device_serial this) pre ->
        to_string d = s_device_serial this ->
        device_index this' = int_of_unsigned (k d))
    /\ (s_device_serial this <> "" ->
        Forall (fun x => to_string x <> s_device_serial this) specs ->
        device_index this' = -1
        /\ trace w' = (trace w2 ++ [serial_not_found])%list).
Proof.
  intros Hinit Hfill Hne.
  pose proof (start_tracker_selecting this w w1 w2 e specs Hinit Hfill Hne) as Hrun.
  cbn zeta in Hrun.
  set (i := select_device (s_device_serial this) specs (-1)) in *.
  assert (Hex : exists w',
            start_tracker this w
            = Ok {| device_index := i; s_device_serial := s_device_serial this |} w'
            /\ (i = -1 -> trace w' = (trace w2 ++ [serial_not_found])%list)).
  { destruct (i =? -1) eqn:E.
    - eexists; split; [exact Hrun | reflexivity].
    - exists w2; split; [exact Hrun|]. apply Z.eqb_neq in E. contradiction. }
  destruct Hex as (w' & Hrun' & Htrace).
  eexists; exists w'. split; [exact Hrun'|]. cbn [device_index]. repeat split.
  - intros Hs first rest ->. unfold i. rewrite Hs. reflexivity.
  - intros Hs pre d post -> Hpre Hd. unfold i.
    apply select_device_first_match; assumption.
  - unfold i. apply select_device_no_match; assumption.
  - apply Htrace. unfold i. apply select_device_no_match; assumption.
Qed.

Lemma int_of_unsigned_small (u : Z) :
  0 <= u < 2 ^ 31 -> int_of_unsigned u = u.
Proof.
  intros H. unfold int_of_unsigned.
  rewrite Z.mod_small by lia.
  destruct (u <? 2 ^ 31) eqn:E; [reflexivity|].
  apply Z.ltb_ge in E. lia.
Qed.

(** X6.  End to end, for the setting "first available": when the handle is not
    null and [slot] is the lowest slot that the runtime lets the
    enumeration list, [start_tracker] binds to [slot] and ends in the state
    the enumeration left, without a message box.  The slot count is taken
    to fit [int]. *)
Lemma start_tracker_first_available (this : steamvr) (w w1 : World) (e : error_t)
    (slot : nat) (rest : list nat) :
  Z.of_nat max_devices <= 2 ^ 31 ->
  vr_init w = Ok (IVRSystem_ptr, e) w1 ->
  s_device_serial this = "" ->
  filter (slot_listed (hw w)) (seq 0 max_devices) = slot :: rest ->
  exists specs w2,
    fill_device_specs [] w1 = Ok specs w2
    /\ start_tracker this w
       = Ok {| device_index := Z.of_nat slot; s_device_serial := "" |} w2.
Proof.
  intros Hmax Hinit Hserial Hlisted.
  pose proof (vr_init_again w w1 _ Hinit) as Hinit1.
  destruct (fill_device_specs_good [] w1 w1 e Hinit1) as (w2 & Hfill & Hhw2).
  rewrite (vr_init_hw _ _ _ Hinit), Hlisted in Hfill. cbn [map] in Hfill.
  assert (Hslot : (slot < max_devices)%nat).
  { assert (Hin : In slot (filter (slot_listed (hw w)) (seq 0 max_devices)))
      by (rewrite Hlisted; left; reflexivity).
    apply filter_In in Hin. destruct Hin as [Hin _]. apply in_seq in Hin. lia. }
  pose proof (start_tracker_selecting this w w1 w2 e _ Hinit Hfill
                ltac:(discriminate)) as Hrun.
  cbn zeta in Hrun. rewrite Hserial in Hrun.
  rewrite select_device_empty_serial in Hrun. cbn [k listed_spec] in Hrun.
  rewrite int_of_unsigned_small in Hrun by lia.
  assert (E : (Z.of_nat slot =? -1) = false) by (apply Z.eqb_neq; lia).
  rewrite E in Hrun. eexists; exists w2. split; [exact Hfill | exact Hrun].
Qed.

(** X4.  Without a runtime [start_tracker] shows the runtime's own message and
    leaves the tracker as it was. *)
Lemma start_tracker_no_runtime (this : steamvr) (w w1 : World) (e : error_t) :
  vr_init w = Ok (nullptr, e) w1 ->
  exists w',
    start_tracker this w = Ok this w'
    /\ trace w'
       = (trace w1 ++ [MessageBox_warning (tr "SteamVR init error") (strerror e)])%list.
Proof.
  intros Hinit. unfold start_tracker, with_vr_lock, bind. rewrite Hinit. cbn.
  eexists. split; reflexivity.
Qed.

End Tracker_binding.

(* ===================================================================== *)
(** ** The per-frame sample and the recentring *)

Section Frames.
Context {FA : FloatArith} {EX : Extern}.

Lemma data_unbound (this : steamvr) (out : output) (w : World) :
  device_index this = -1 -> data this out w = Ok out w.
Proof.
  intros H. unfold data. rewrite H. reflexivity.
Qed.

Lemma data_invalid (this : steamvr) (out : output) (w w1 : World) (p : pose_t) :
  get_pose (device_index this) w = Ok (false, p) w1 ->
  data this out w = Ok out w1.
Proof.
  intros H. unfold data.
  destruct (device_index this =? -1) eqn:E; cbn [negb].
  - apply Z.eqb_eq in E. rewrite E in H.
    rewrite get_pose_out_of_range in H by lia.
    injection H as _ <-. reflexivity.
  - unfold bind. rewrite H. reflexivity.
Qed.

(** C7.  A call of [data] while the tracker is unbound, or whose
    [get_pose] returns with the flag false, returns the output array as it
    was handed in: none of the six entries is written.  Unbound, it does
    nothing at all. *)
Theorem data_without_valid_pose_writes_nothing (this : steamvr) (out : output)
    (w : World) :
  (device_index this = -1 -> data this out w = Ok out w)
  /\ (forall p w1,
        get_pose (device_index this) w = Ok (false, p) w1 ->
        data this out w = Ok out w1).
Proof.
  split.
  - apply data_unbound.
  - intros p w1. apply data_invalid.
Qed.

(** C6.  The tracker is bound to a slot in range, the handle is not null
    and the runtime reports the slot's pose [mat] as valid and connected.
    Then [data] returns, and the array holds
      TX = -mat[0][3] * 10, TY = mat[1][3] * 10, TZ = mat[2][3] * 10,
      Yaw = atan2(-mat[2][0], sqrt(mat[2][1]^2 + mat[2][2]^2)) * (180/pi),
      Pitch = atan2(mat[2][1], mat[2][2]) * (180/pi),
      Roll = atan2(mat[1][0], mat[0][0]) * (180/pi),
    each in the arithmetic of the source: the translation is a [float]
    product widened to [double]; the first square under the root is a
    [double] product, the second a [float] product. *)
Theorem data_writes_pose_transform (this : steamvr) (out : output)
    (w w1 : World) (e : error_t) :
  0 <= device_index this < Z.of_nat max_devices ->
  vr_init w = Ok (IVRSystem_ptr, e) w1 ->
  bPoseIsValid (reported_pose w (device_index this)) = true ->
  bDeviceIsConnected (reported_pose w (device_index this)) = true ->
  let mat := mDeviceToAbsoluteTracking (reported_pose w (device_index this)) in
  exists out' w',
    data this out w = Ok out' w'
    /\ out' TX = widen (fmul (fneg (m mat 0 3)) (flt_of_int 10))
    /\ out' TY = widen (fmul (m mat 1 3) (flt_of_int 10))
    /\ out' TZ = widen (fmul (m mat 2 3) (flt_of_int 10))
    /\ out' Yaw =
       dmul (datan2 (widen (fneg (m mat 2 0)))
                    (dsqrt (dadd (dmul (widen (m mat 2 1)) (widen (m mat 2 1)))
                                 (widen (fmul (m mat 2 2) (m mat 2 2))))))
            r2d
    /\ out' Pitch = dmul (datan2 (widen (m mat 2 1)) (widen (m mat 2 2))) r2d
    /\ out' Roll = dmul (datan2 (widen (m mat 1 0)) (widen (m mat 0 0))) r2d.
Proof.
  intros Hk Hinit Hv Hc mat.
  pose proof (get_pose_good_handle _ w w1 e Hk Hinit) as G. cbn zeta in G.
  rewrite Hv, Hc in G. cbn in G.
  unfold data.
  assert (E : (device_index this =? -1) = false) by (apply Z.eqb_neq; lia).
  rewrite E. cbn [negb]. unfold bind. rewrite G. cbn.
  eexists; eexists. split; [reflexivity|].
  repeat split.
Qed.

(** C8.  [center] returns true from every state, with or without a
    runtime and whatever the reset does to the runtime, and the tracker
    object is the one it was called on. *)
Theorem center_returns_true (this : steamvr) (w : World) :
  exists w', center this w = Ok (true, this) w'.
Proof.
  destruct (vr_init_total w) as ([vh e] & w1 & Hinit & _).
  unfold center, with_vr_lock, bind. rewrite Hinit.
  destruct vh; cbn; eexists; reflexivity.
Qed.

(** With a runtime the reset is issued, and the runtime is what the reset
    made of it; without one nothing is called. *)
Lemma center_resets (this : steamvr) (w w1 : World) (e : error_t) :
  vr_init w = Ok (IVRSystem_ptr, e) w1 ->
  exists w',
    center this w = Ok (true, this) w'
    /\ hw w' = hw_reset_seated (hw w)
    /\ trace w' = (trace w1 ++ [Call_ResetSeatedZeroPose])%list.
Proof.
  intros Hinit. unfold center, with_vr_lock, bind. rewrite Hinit. cbn.
  eexists. split; [reflexivity|]. cbn.
  rewrite (vr_init_hw _ _ _ Hinit). split; reflexivity.
Qed.

Lemma center_no_runtime (this : steamvr) (w w1 : World) (e : error_t) :
  vr_init w = Ok (nullptr, e) w1 ->
  center this w = Ok (true, this) w1.
Proof.
  intros Hinit. unfold center, with_vr_lock, bind. rewrite Hinit. reflexivity.
Qed.

End Frames.

(* ===================================================================== *)
(** ** The session in any interleaving of the operations *)

Create HintDb session.

Section Interleavings.
Context {FA : FloatArith} {EX : Extern}.

Lemma keeps_ret {A} (a : A) : keeps_session (ret a).
Proof. intros w H. exact H. Qed.

Lemma keeps_bind {A B} (c : M A) (f : A -> M B) :
  keeps_session c -> (forall a, keeps_session (f a)) -> keeps_session (bind c f).
Proof.
  intros Hc Hf w H. unfold bind. specialize (Hc w H).
  destruct (c w) as [a w'|w']; cbn in *; [apply Hf|]; exact Hc.
Qed.

Lemma session_ok_same (w w' : World) :
  vr_init_t w' = vr_init_t w -> vr_init_calls w' = vr_init_calls w ->
  VR_Init_events w' = VR_Init_events w ->
  session_ok w -> session_ok w'.
Proof.
  unfold session_ok. intros -> -> ->. exact (fun H => H).
Qed.

Lemma keeps_emit (e : Event) : is_VR_Init e = false -> keeps_session (emit e).
Proof.
  intros He w. apply session_ok_same; try reflexivity.
  unfold VR_Init_events. cbn. rewrite filter_app, length_app. cbn. rewrite He.
  cbn. lia.
Qed.

Lemma keeps_deref (v : vr_t) : keeps_session (deref v).
Proof. intros w H. destruct v; exact H. Qed.

Lemma keeps_read_hw : keeps_session read_hw.
Proof. intros w H. exact H. Qed.

Lemma keeps_vr_init : keeps_session vr_init.
Proof.
  intros w H. destruct (vr_init_total w) as (t & w' & E & _).
  rewrite E. cbn. apply (vr_init_session_ok w w' t H E).
Qed.

Lemma keeps_once (c : M unit) : keeps_session c -> keeps_session (once_only_get_pose c).
Proof.
  intros Hc w H. unfold once_only_get_pose.
  destruct (get_pose_once w); [exact H|].
  apply Hc. revert H. apply session_ok_same; reflexivity.
Qed.

Lemma keeps_reset (v : vr_t) : keeps_session (ResetSeatedZeroPose v).
Proof.
  unfold ResetSeatedZeroPose.
  apply keeps_bind; [apply keeps_deref|intros _].
  apply keeps_bind; [apply keeps_emit; reflexivity|intros _].
  intros w. apply session_ok_same; reflexivity.
Qed.

Ltac keeps_step :=
  first
    [ simple apply keeps_ret
    | simple apply keeps_vr_init
    | simple apply keeps_deref
    | simple apply keeps_read_hw
    | simple apply keeps_reset
    | simple apply keeps_emit; reflexivity
    | simple apply keeps_once
    | solve [auto with session nocore]
    | simple apply keeps_bind; [|intros ?]
    | match goal with
      | |- keeps_session (if ?b then _ else _) => destruct b
      | |- keeps_session (match ?x with (_, _) => _ end) => destruct x
      | |- keeps_session (let '(_, _) := ?x in _) => destruct x
      | |- keeps_session (let _ := _ in _) => cbv zeta
      end ].

Ltac keeps := repeat keeps_step.

Lemma keeps_get_pose (k : Z) : keeps_session (get_pose k).
Proof.
  unfold get_pose, with_vr_lock, GetDeviceToAbsoluteTrackingPose. keeps.
Qed.
#[local] Hint Resolve keeps_get_pose : session.

Lemma keeps_fill_slot v st k l : keeps_session (fill_slot v st k l).
Proof.
  unfold fill_slot, GetTrackedDeviceClass, GetStringTrackedDeviceProperty. keeps.
Qed.

Lemma keeps_fill_slots v st ks : forall l, keeps_session (fill_slots v st ks l).
Proof.
  induction ks as [|k ks IH]; intros l; cbn.
  - keeps.
  - apply keeps_bind; [apply keeps_fill_slot | exact IH].
Qed.
#[local] Hint Resolve keeps_fill_slots : session.

Lemma keeps_fill_device_specs l : keeps_session (fill_device_specs l).
Proof.
  unfold fill_device_specs, with_vr_lock, GetDeviceToAbsoluteTrackingPose. keeps.
Qed.
#[local] Hint Resolve keeps_fill_device_specs : session.

Lemma keeps_start_tracker this : keeps_session (start_tracker this).
Proof.
  unfold start_tracker, with_vr_lock, device_list_new, refresh_device_list,
    QMessageBox_warning.
  keeps.
Qed.
#[local] Hint Resolve keeps_start_tracker : session.

Lemma keeps_data this out : keeps_session (data this out).
Proof.
  unfold data. keeps.
Qed.
#[local] Hint Resolve keeps_data : session.

Lemma keeps_center this : keeps_session (center this).
Proof.
  unfold center, with_vr_lock. keeps.
Qed.
#[local] Hint Resolve keeps_center : session.

Lemma keeps_run_call (c : Call) : keeps_session (run_call c).
Proof.
  destruct c; cbn; keeps.
Qed.

Lemma then_nil_results {A} (c : M A) (w w' : World) (ts : list tt_t) :
  bind c (fun _ => ret []) w = Ok ts w' -> ts = [].
Proof.
  unfold bind, ret. destruct (c w); [|discriminate].
  intros H. injection H as <- _. reflexivity.
Qed.

Lemma run_call_results (c : Call) (w w' : World) (ts : list tt_t) :
  session_ok w -> run_call c w = Ok ts w' -> Forall (eq (VR_Init 0)) ts.
Proof.
  intros Hok. destruct c; cbn [run_call];
    try (intros H; apply then_nil_results in H; subst ts; constructor).
  unfold bind. destruct (vr_init_total w) as (t & w1 & E & _). rewrite E.
  unfold ret. intros H. injection H as <- _.
  destruct (vr_init_session_ok w w1 t Hok E) as [_ ->]. repeat constructor.
Qed.

(** X1.  In any interleaving of the operations of the tracker, started in a
    fresh process, [vr::VR_Init] runs at most once and every [vr_init]
    returns the outcome of that run; this holds up to the point of a crash
    as well. *)
Lemma session_in_any_interleaving (h : Hardware) (cs : list Call) :
  let r := run_calls cs (process_start h) in
  (vr_init_calls (result_world r) <= 1)%nat
  /\ VR_Init_events (result_world r) = vr_init_calls (result_world r)
  /\ forall ts w', r = Ok ts w' -> Forall (eq (VR_Init 0)) ts.
Proof.
  assert (G : forall cs w, session_ok w ->
            session_ok (result_world (run_calls cs w))
            /\ forall ts w', run_calls cs w = Ok ts w' -> Forall (eq (VR_Init 0)) ts).
  { clear cs. induction cs as [|c cs IH]; intros w Hok.
    - cbn. split; [exact Hok|]. intros ts w' [= <- <-]. constructor.
    - cbn [run_calls]. unfold bind.
      pose proof (keeps_run_call c w Hok) as Hc.
      pose proof (run_call_results c w) as Hr.
      destruct (run_call c w) as [ts1 w1|w1]; cbn in Hc.
      + destruct (IH w1 Hc) as [Hok2 Hts2].
        destruct (run_calls cs w1) as [ts2 w2|w2]; cbn in *.
        * split; [exact Hok2|]. unfold ret. intros ts w' [= <- <-].
          apply Forall_app. split; [eapply Hr; eauto | eapply Hts2; eauto].
        * split; [exact Hok2 | discriminate].
      + cbn. split; [exact Hc | discriminate]. }
  intros r. destruct (G cs (process_start h) (session_ok_start h)) as [Hok Hts].
  fold r in Hok. split; [|split; [|exact Hts]];
    unfold session_ok in Hok; destruct (vr_init_t (result_world r));
    intuition lia.
Qed.
End Interleavings.

(* ===================================================================== *)
(** ** The shortcut table *)

Section Reload_facts.
Import Shortcuts.
Variable Act : Type.
Context {P : Platform Act}.

Lemma reload_step_keys (s : State) (kk : key_opts * fun_t Act * bool) :
  exists entry,
    keys (reload_step s kk) = (keys s ++ [entry])%list /\ entry_of kk entry.
Proof.
  destruct kk as [[opts fun_] held]. unfold reload_step.
  destruct (bind_shortcut K_new opts held (outside s)) as [k o] eqn:E.
  exists (k, stored_fun fun_, held). cbn. split; [reflexivity|].
  repeat split. exists (outside s). rewrite E. reflexivity.
Qed.

Lemma reload_loop_keys (l : t_keys Act) (s : State) :
  exists entries,
    keys (fold_left (@reload_step Act P) l s) = (keys s ++ entries)%list
    /\ Forall2 entry_of l entries.
Proof.
  revert s. induction l as [|kk l IH]; intros s; cbn [fold_left].
  - exists []. rewrite app_nil_r. split; [reflexivity | constructor].
  - destruct (reload_step_keys s kk) as (entry & Hk & He).
    destruct (IH (reload_step s kk)) as (entries & Hks & Hes).
    exists (entry :: entries). split.
    + rewrite Hks, Hk, <- app_assoc. reflexivity.
    + constructor; assumption.
Qed.

Lemma size_as_unsigned_small (keys_ : t_keys Act) :
  Z.of_nat (List.length keys_) < 2 ^ 32 ->
  Z.to_nat (size_as_unsigned keys_) = List.length keys_.
Proof.
  intros H. unfold size_as_unsigned.
  rewrite Z.mod_small by lia. apply Nat2Z.id.
Qed.

(** C10.  For a list [keys_] of at most 2^31 elements, [reload] leaves in
    [keys] one entry for each element of [keys_] and nothing else, in the
    order of [keys_]: the entry at a position carries the flag of the
    element at that position, its handler behind the stored lambda, and
    the key bound from its options.  No entry of the previous vector is
    left.  Up to that size [unsigned sz] holds the size of [keys_] and,
    in the builds that read the new entry back through [int idx], every
    index of the new vector fits [int]. *)
Theorem reload_rebuilds_keys (keys_ : t_keys Act) (s : State) :
  Z.of_nat (List.length keys_) <= 2 ^ 31 ->
  List.length (keys (reload keys_ s)) = List.length keys_
  /\ Forall2 entry_of keys_ (keys (reload keys_ s)).
Proof.
  intros Hsz. unfold reload.
  assert (Hsz' : Z.of_nat (List.length keys_) < 2 ^ 32) by lia.
  rewrite (size_as_unsigned_small keys_ Hsz'), firstn_all.
  destruct (reload_loop_keys keys_
              {| keys := []; outside := drop_keys (keys s) (outside s) |})
    as (entries & Hk & He).
  rewrite Hk. cbn [keys app]. split; [|exact He].
  symmetry. eapply Forall2_length. exact He.
Qed.

End Reload_facts.

(* ===================================================================== *)
(** ** The transform over the real numbers *)

Lemma atan2_zero_pos (x : R) : (0 < x)%R -> atan2 0 x = 0%R.
Proof.
  intros Hx. unfold atan2. destruct (Rlt_dec 0 x) as [_|Hn]; [|contradiction].
  unfold Rdiv. rewrite Rmult_0_l. apply atan_0.
Qed.

(* ===================================================================== *)
(** ** Concrete runs

    The theorems above at the machine [desk]: sixteen slots, a headset
    translated by (1, 2, 3) in slot 0, a controller without a valid pose in
    slot 1, a base station in slot 2. *)

Section Concrete_runs.

(** A null handle and slot 0. *)
Lemma get_pose_dereferences_null_handle_witness :
  @get_pose real_arith no_runtime 0 desk_start
  = NullDeref (@after_first_init real_arith no_runtime desk_start)
  /\ forall r w', @get_pose real_arith no_runtime 0 desk_start <> Ok r w'.
Proof.
  apply (@get_pose_dereferences_null_handle real_arith no_runtime 0 desk_start _ 108).
  - cbn. lia.
  - reflexivity.
Defined.

(** Index 16 is out of range; slot 1 is connected without a valid pose. *)
Lemma get_pose_valid_iff_flags_witness :
  @get_pose real_arith with_runtime 16 desk_start = Ok (false, pose_zero) desk_start
  /\ exists ok p w',
       @get_pose real_arith with_runtime 1 desk_start = Ok (ok, p) w'
       /\ (ok = true <->
           bPoseIsValid (@reported_pose real_arith desk_start 1) = true
           /\ bDeviceIsConnected (@reported_pose real_arith desk_start 1) = true)
       /\ (ok = true -> p = @reported_pose real_arith desk_start 1).
Proof.
  split.
  - apply (proj1 (@get_pose_valid_iff_flags real_arith with_runtime 16 desk_start)).
    right. cbn. lia.
  - apply (proj2 (@get_pose_valid_iff_flags real_arith with_runtime 1 desk_start))
      with (e := VRInitError_None) (w1 := desk_ready).
    + cbn. lia.
    + reflexivity.
Defined.

(** The controller of slot 1: the flag is false and the pose is zero. *)
Lemma get_pose_invalid_is_zero_witness :
  match @get_pose real_arith with_runtime 1 desk_start with
  | Ok (false, p) _ => p = pose_zero
  | _ => False
  end.
Proof.
  cbn.
  eapply (@get_pose_invalid_is_zero real_arith with_runtime 1 desk_start).
  unfold get_pose. cbn. reflexivity.
Defined.

(** The enumeration of [desk]: slots 0 and 1. *)
Lemma fill_device_specs_lists_exactly_witness :
  exists l w',
    @fill_device_specs real_arith with_runtime [] desk_start = Ok l w'
    /\ l = map (listed_spec desk) (filter (slot_listed desk) (seq 0 16))
    /\ (forall slot : nat,
          In (Z.of_nat slot) (map k l) <->
          (slot < 16)%nat /\ slot_listed desk slot = true)
    /\ StronglySorted Z.lt (map k l).
Proof.
  apply (@fill_device_specs_lists_exactly real_arith with_runtime [] desk_start desk_ready
           VRInitError_None).
  reflexivity.
Defined.

Example desk_listing :
  map (fun d => (k d, @to_string real_arith with_runtime d))
      (map (listed_spec desk) (filter (slot_listed desk) (seq 0 16)))
  = [ (0, "<HMD> Vive MV [LHR-1234ABCD]");
      (1, "<Controller> Vive Controller [LHR-FFFF0001]") ].
Proof. reflexivity. Qed.

(** Binding by the identity string of the controller. *)
Lemma start_tracker_binds_witness :
  exists this' w',
    @start_tracker real_arith with_runtime controller_wanted desk_start = Ok this' w'
    /\ device_index this' = 1.
Proof.
  destruct (@start_tracker_binds real_arith with_runtime controller_wanted
              desk_start desk_ready desk_listed
              VRInitError_None
              (map (listed_spec desk) (filter (slot_listed desk) (seq 0 16))))
    as (this' & w' & Hrun & _ & Hmatch & _).
  - reflexivity.
  - cbn. reflexivity.
  - cbn. discriminate.
  - exists this', w'. split; [exact Hrun|].
    apply (Hmatch ltac:(discriminate)
             [listed_spec desk 0] (listed_spec desk 1) []).
    + reflexivity.
    + constructor; [cbn; discriminate | constructor].
    + reflexivity.
Defined.

(** The headset of slot 0, sampled into an array of zeros: the
    translation (1, 2, 3) is reported as (-10, 20, 30) and the identity
    rotation has yaw, pitch and roll 0. *)
Lemma data_writes_pose_transform_witness :
  exists out' w',
    @data real_arith with_runtime {| device_index := 0; s_device_serial := "" |}
          (fun _ => 0%R) desk_start = Ok out' w'
    /\ out' TX = (-10)%R /\ out' TY = 20%R /\ out' TZ = 30%R
    /\ out' Yaw = 0%R /\ out' Pitch = 0%R /\ out' Roll = 0%R.
Proof.
  destruct (@data_writes_pose_transform real_arith with_runtime
              {| device_index := 0; s_device_serial := "" |}
              (fun _ => 0%R) desk_start desk_ready VRInitError_None)
    as (out' & w' & Hrun & Htx & Hty & Htz & Hyaw & Hpitch & Hroll);
    try reflexivity; [cbn; lia|].
  exists out', w'. split; [exact Hrun|].
  cbn in Htx, Hty, Htz, Hyaw, Hpitch, Hroll.
  rewrite Htx, Hty, Htz, Hyaw, Hpitch, Hroll.
  assert (Hroot : sqrt (0 * 0 + 1 * 1) = 1%R).
  { replace (0 * 0 + 1 * 1)%R with 1%R by ring. apply sqrt_1. }
  rewrite Hroot, Ropp_0, (atan2_zero_pos 1 Rlt_0_1).
  cbv [dbl real_arith].
  repeat apply conj; try apply Rmult_0_l; ring.
Defined.

(** An unbound tracker, and a tracker bound to the controller of slot 1. *)
Lemma data_without_valid_pose_writes_nothing_witness :
  @data real_arith with_runtime {| device_index := -1; s_device_serial := "" |}
        sevens desk_start = Ok sevens desk_start
  /\ exists w',
       @data real_arith with_runtime {| device_index := 1; s_device_serial := "" |}
             sevens desk_start = Ok sevens w'.
Proof.
  split.
  - apply (proj1 (@data_without_valid_pose_writes_nothing real_arith with_runtime
                    {| device_index := -1; s_device_serial := "" |} sevens desk_start)).
    reflexivity.
  - eexists.
    apply (proj2 (@data_without_valid_pose_writes_nothing real_arith with_runtime
                    {| device_index := 1; s_device_serial := "" |} sevens desk_start)
             pose_zero).
    unfold get_pose. cbn. reflexivity.
Defined.

End Concrete_runs.

(* ===================================================================== *)
(** ** A concrete reload *)

Section Concrete_reload.
Import Shortcuts.

(** A table of two bindings, loaded over a table that held one. *)
Lemma reload_rebuilds_keys_witness :
  List.length (keys (reload two_keys one_binding)) = 2%nat
  /\ Forall2 entry_of two_keys (keys (reload two_keys one_binding)).
Proof.
  apply (@reload_rebuilds_keys bool qxt two_keys one_binding).
  cbn. lia.
Defined.

(** The two new objects are at 8 and 9, the old one at 7 is gone and the
    new ones are connected. *)
Example reload_unix_keys :
  let s' := reload two_keys one_binding in
  map (fun e => (fst (fst e), snd e)) (keys s') = [ (Some 8%nat, false); (Some 9%nat, true) ]
  /\ objects (outside s') 7 = None
  /\ objects (outside s') 8 = Some {| shortcut := "Ctrl+T"; enabled := true |}
  /\ map fst (connections (outside s')) = [8%nat; 9%nat].
Proof. repeat split. Qed.

End Concrete_reload.

(* ===================================================================== *)
(** ** Invariants of the process state

    A property of the state that looks only at the static of [vr_init]
    and at the [atexit] registrations in the trace, and that [vr_init]
    keeps, is kept by every operation of the tracker. *)

Create HintDb inv.

Section Invariants.
Context {FA : FloatArith} {EX : Extern}.
Variable I : World -> Prop.

Hypothesis I_frame : forall w w',
  vr_init_t w' = vr_init_t w ->
  filter is_AtExit (trace w') = filter is_AtExit (trace w) ->
  I w -> I w'.

Hypothesis I_vr_init : keeps I vr_init.

Lemma inv_ret {A} (a : A) : keeps I (ret a).
Proof. intros w H. exact H. Qed.

Lemma inv_bind {A B} (c : M A) (f : A -> M B) :
  keeps I c -> (forall a, keeps I (f a)) -> keeps I (bind c f).
Proof.
  intros Hc Hf w H. unfold bind. specialize (Hc w H).
  destruct (c w) as [a w'|w']; cbn in *; [apply Hf|]; exact Hc.
Qed.

Lemma inv_emit (e : Event) : is_AtExit e = false -> keeps I (emit e).
Proof.
  intros He w. apply I_frame; [reflexivity|].
  cbn. rewrite filter_app. cbn. rewrite He. apply app_nil_r.
Qed.

Lemma inv_deref (v : vr_t) : keeps I (deref v).
Proof. intros w H. destruct v; exact H. Qed.

Lemma inv_read_hw : keeps I read_hw.
Proof. intros w H. exact H. Qed.

Lemma inv_once (c : M unit) : keeps I c -> keeps I (once_only_get_pose c).
Proof.
  intros Hc w H. unfold once_only_get_pose.
  destruct (get_pose_once w); [exact H|].
  apply Hc. revert H. apply I_frame; reflexivity.
Qed.

Lemma inv_reset (v : vr_t) : keeps I (ResetSeatedZeroPose v).
Proof.
  unfold ResetSeatedZeroPose.
  apply inv_bind; [apply inv_deref|intros _].
  apply inv_bind; [apply inv_emit; reflexivity|intros _].
  intros w. apply I_frame; reflexivity.
Qed.

Ltac inv_step :=
  first
    [ simple apply inv_ret
    | simple apply I_vr_init
    | simple apply inv_deref
    | simple apply inv_read_hw
    | simple apply inv_reset
    | simple apply inv_emit; reflexivity
    | simple apply inv_once
    | solve [auto with inv nocore]
    | simple apply inv_bind; [|intros ?]
    | match goal with
      | |- keeps I (if ?b then _ else _) => destruct b
      | |- keeps I (match ?x with (_, _) => _ end) => destruct x
      | |- keeps I (let _ := _ in _) => cbv zeta
      end ].

Ltac inv := repeat inv_step.

Lemma inv_get_pose (k : Z) : keeps I (get_pose k).
Proof.
  unfold get_pose, with_vr_lock, GetDeviceToAbsoluteTrackingPose. inv.
Qed.
#[local] Hint Resolve inv_get_pose : inv.

Lemma inv_fill_slot vh st k l : keeps I (fill_slot vh st k l).
Proof.
  unfold fill_slot, GetTrackedDeviceClass, GetStringTrackedDeviceProperty. inv.
Qed.

Lemma inv_fill_slots vh st ks : forall l, keeps I (fill_slots vh st ks l).
Proof.
  induction ks as [|k ks IH]; intros l; cbn.
  - inv.
  - apply inv_bind; [apply inv_fill_slot | exact IH].
Qed.
#[local] Hint Resolve inv_fill_slots : inv.

Lemma inv_fill_device_specs l : keeps I (fill_device_specs l).
Proof.
  unfold fill_device_specs, with_vr_lock, GetDeviceToAbsoluteTrackingPose. inv.
Qed.
#[local] Hint Resolve inv_fill_device_specs : inv.

Lemma inv_device_list_new : keeps I device_list_new.
Proof.
  unfold device_list_new, refresh_device_list. inv.
Qed.
#[local] Hint Resolve inv_device_list_new : inv.

Lemma inv_start_tracker this : keeps I (start_tracker this).
Proof.
  unfold start_tracker, with_vr_lock, QMessageBox_warning. inv.
Qed.
#[local] Hint Resolve inv_start_tracker : inv.

Lemma inv_data this out : keeps I (data this out).
Proof.
  unfold data. inv.
Qed.
#[local] Hint Resolve inv_data : inv.

Lemma inv_center this : keeps I (center this).
Proof.
  unfold center, with_vr_lock. inv.
Qed.
#[local] Hint Resolve inv_center : inv.

Lemma inv_run_call (c : Call) : keeps I (run_call c).
Proof.
  destruct c; cbn; inv.
Qed.

Lemma inv_run_calls (cs : list Call) : keeps I (run_calls cs).
Proof.
  induction cs as [|c cs IH]; cbn.
  - apply inv_ret.
  - apply inv_bind; [apply inv_run_call | intros ts].
    apply inv_bind; [exact IH | intros ts']. apply inv_ret.
Qed.

End Invariants.

Section Shutdown_hook.
Context {FA : FloatArith} {EX : Extern}.

Lemma shutdown_ok_frame (w w' : World) :
  vr_init_t w' = vr_init_t w ->
  filter is_AtExit (trace w') = filter is_AtExit (trace w) ->
  shutdown_ok w -> shutdown_ok w'.
Proof.
  unfold shutdown_ok, shutdown_hooks. intros -> ->. exact (fun H => H).
Qed.

Lemma shutdown_ok_vr_init : keeps shutdown_ok vr_init.
Proof.
  intros w H. destruct (vr_init_t w) as [t|] eqn:E.
  - rewrite (vr_init_cached _ _ E). exact H.
  - rewrite (vr_init_first _ E). cbn.
    unfold shutdown_ok, shutdown_hooks in *. rewrite E in H. cbn.
    rewrite !filter_app, !length_app, H. cbn.
    destruct (is_null (fst (VR_Init (vr_init_calls w)))); reflexivity.
Qed.

(** X2.  In any interleaving of the operations of the tracker, started in
    a fresh process, [VR_Shutdown] is handed to [std::atexit] at most once,
    and it has been handed over exactly when the static of [vr_init] holds
    a handle that is not null: never after a failed initialisation, and
    never twice. *)
Theorem shutdown_hook_registered_once (h : Hardware) (cs : list Call) :
  let w' := result_world (run_calls cs (process_start h)) in
  (shutdown_hooks w' <= 1)%nat
  /\ (shutdown_hooks w' = 1%nat <->
      exists e, vr_init_t w' = Some (IVRSystem_ptr, e)).
Proof.
  intros w'.
  assert (H : shutdown_ok w').
  { apply (inv_run_calls shutdown_ok shutdown_ok_frame shutdown_ok_vr_init).
    reflexivity. }
  unfold shutdown_ok in H.
  destruct (vr_init_t w') as [[vh e]|].
  - destruct vh; cbn in H; rewrite H; split; try lia; split.
    + discriminate.
    + intros [e' He']. discriminate.
    + intros _. exists e. reflexivity.
    + reflexivity.
  - rewrite H. split; [lia|]. split; [discriminate|].
    intros [e He]. discriminate.
Qed.

End Shutdown_hook.

(* ===================================================================== *)
(** ** The life of a tracker object *)

Section Tracker_life.
Context {FA : FloatArith} {EX : Extern}.

Lemma static_is_frame (t : tt_t) (w w' : World) :
  vr_init_t w' = vr_init_t w ->
  filter is_AtExit (trace w') = filter is_AtExit (trace w) ->
  static_is t w -> static_is t w'.
Proof.
  unfold static_is. intros -> _. exact (fun H => H).
Qed.

Lemma static_is_vr_init (t : tt_t) : keeps (static_is t) vr_init.
Proof.
  intros w H. rewrite (vr_init_cached _ _ H). exact H.
Qed.

(** Once the static holds [t], the enumeration leaves it there. *)
Lemma static_after_fill (t : tt_t) (l0 l : list device_spec) (w w' : World) :
  vr_init_t w = Some t -> fill_device_specs l0 w = Ok l w' -> vr_init_t w' = Some t.
Proof.
  intros Ht Hrun.
  pose proof (inv_fill_device_specs (static_is t) (static_is_frame t)
                (static_is_vr_init t) l0 w Ht) as H.
  rewrite Hrun in H. exact H.
Qed.

Lemma static_after_vr_init (w w1 : World) (t : tt_t) :
  vr_init w = Ok t w1 -> vr_init_t w1 = Some t.
Proof.
  intros H. destruct (vr_init_total w) as (t' & w' & H' & _ & Hs & _).
  rewrite H in H'. injection H' as -> ->. exact Hs.
Qed.

(** The enumeration returns from every state. *)
Lemma fill_device_specs_returns (l0 : list device_spec) (w : World) :
  exists l w', fill_device_specs l0 w = Ok l w'.
Proof.
  destruct (vr_init_total w) as ([vh e] & w1 & Hinit & _).
  destruct vh.
  - exists [], w1. apply (fill_device_specs_null l0 w w1 e Hinit).
  - destruct (fill_device_specs_good l0 w w1 e Hinit) as (w' & H & _).
    eexists; exists w'. exact H.
Qed.

Lemma bound_ok_static (this : steamvr) (w w' : World) :
  (forall t, vr_init_t w = Some t -> vr_init_t w' = Some t) ->
  bound_ok this w -> bound_ok this w'.
Proof.
  intros Hs [H|[e H]]; [left; exact H|right].
  exists e. apply Hs. exact H.
Qed.

Lemma start_tracker_life (this : steamvr) (w : World) :
  bound_ok this w ->
  exists this' w', start_tracker this w = Ok this' w' /\ bound_ok this' w'.
Proof.
  intros Hb.
  destruct (vr_init_total w) as ([vh e] & w1 & Hinit & _).
  pose proof (static_after_vr_init _ _ _ Hinit) as Hs1.
  unfold start_tracker, with_vr_lock, bind. rewrite Hinit.
  destruct vh; cbn.
  - eexists; eexists. split; [reflexivity|].
    destruct Hb as [Hb|[e' Hb]]; [left; exact Hb|].
    rewrite (vr_init_cached _ _ Hb) in Hinit. discriminate.
  - unfold device_list_new, refresh_device_list, bind.
    destruct (fill_device_specs_returns [] w1) as (specs & w2 & Hfill).
    pose proof (static_after_fill _ _ _ _ _ Hs1 Hfill) as Hs2.
    cbn. rewrite Hfill. cbn.
    destruct (Z.of_nat (List.length specs) =? 0); cbn.
    + eexists; eexists. split; [reflexivity|].
      destruct Hb as [Hb|[e' Hb]]; [left; exact Hb|].
      right. exists e. exact Hs2.
    + destruct (select_device (s_device_serial this) specs (-1) =? -1); cbn;
        eexists; eexists; (split; [reflexivity|]); right; exists e; exact Hs2.
Qed.

Lemma get_pose_returns_with_handle (k : Z) (w : World) (e : error_t) :
  vr_init_t w = Some (IVRSystem_ptr, e) ->
  exists r w', get_pose k w = Ok r w'.
Proof.
  intros Hs.
  destruct (Z_lt_dec k 0) as [Hneg|Hnn].
  { eexists; eexists. apply get_pose_out_of_range. lia. }
  destruct (Z_le_dec (Z.of_nat max_devices) k) as [Hbig|Hsmall].
  { eexists; eexists. apply get_pose_out_of_range. lia. }
  assert (Hk : 0 <= k < Z.of_nat max_devices) by lia.
  pose proof (get_pose_good_handle k w w e Hk (vr_init_cached _ _ Hs)) as G.
  cbn zeta in G.
  destruct (bPoseIsValid (reported_pose w k) && bDeviceIsConnected (reported_pose w k)).
  - eexists; eexists. exact G.
  - destruct G as [w' G]. eexists; eexists. exact G.
Qed.

Lemma data_life (this : steamvr) (out : output) (w : World) :
  bound_ok this w ->
  exists out' w', data this out w = Ok out' w' /\ bound_ok this w'.
Proof.
  intros Hb.
  assert (Hkeep : forall w', w' = result_world (data this out w) ->
                             bound_ok this w').
  { intros w' ->. revert Hb. apply bound_ok_static. intros t Ht.
    apply (inv_data (static_is t) (static_is_frame t) (static_is_vr_init t)
             this out w Ht). }
  destruct Hb as [Hb|[e Hs]].
  - exists out, w. rewrite (data_unbound this out w Hb) in *.
    split; [reflexivity|]. apply Hkeep. reflexivity.
  - assert (Hrun : exists out' w', data this out w = Ok out' w').
    { unfold data. destruct (negb (device_index this =? -1));
        [|eexists; eexists; reflexivity].
      unfold bind.
      destruct (get_pose_returns_with_handle (device_index this) w e Hs)
        as ([ok p] & w' & G).
      rewrite G. destruct ok; cbn; eexists; eexists; reflexivity. }
    destruct Hrun as (out' & w' & Hrun). exists out', w'.
    split; [exact Hrun|]. apply Hkeep. rewrite Hrun. reflexivity.
Qed.

Lemma center_life (this : steamvr) (w : World) :
  bound_ok this w ->
  exists w', center this w = Ok (true, this) w' /\ bound_ok this w'.
Proof.
  intros Hb.
  destruct (vr_init_total w) as ([vh e] & w1 & Hinit & _).
  assert (Hrun : exists w', center this w = Ok (true, this) w').
  { unfold center, with_vr_lock, bind. rewrite Hinit.
    destruct vh; cbn; eexists; reflexivity. }
  destruct Hrun as (w' & Hrun). exists w'. split; [exact Hrun|].
  revert Hb. apply bound_ok_static. intros t Ht.
  pose proof (inv_center (static_is t) (static_is_frame t) (static_is_vr_init t)
                this w Ht) as H.
  rewrite Hrun in H. exact H.
Qed.

Lemma device_list_life (this : steamvr) (w : World) :
  bound_ok this w ->
  exists d w', device_list_new w = Ok d w' /\ bound_ok this w'.
Proof.
  intros Hb.
  destruct (fill_device_specs_returns [] w) as (l & w' & Hfill).
  exists {| device_specs := l |}, w'.
  split.
  - unfold device_list_new, refresh_device_list, bind. cbn. rewrite Hfill.
    reflexivity.
  - revert Hb. apply bound_ok_static. intros t Ht.
    apply (static_after_fill t [] l w w' Ht Hfill).
Qed.

Lemma run_use_life (u : Use) (this : steamvr) (w : World) :
  bound_ok this w ->
  exists this' w', run_use u this w = Ok this' w' /\ bound_ok this' w'.
Proof.
  intros Hb. destruct u; cbn [run_use]; unfold bind.
  - apply start_tracker_life. exact Hb.
  - destruct (data_life this out w Hb) as (out' & w' & H & Hb').
    rewrite H. exists this, w'. split; [reflexivity | exact Hb'].
  - destruct (center_life this w Hb) as (w' & H & Hb').
    rewrite H. exists this, w'. split; [reflexivity | exact Hb'].
  - destruct (device_list_life this w Hb) as (d & w' & H & Hb').
    rewrite H. exists this, w'. split; [reflexivity | exact Hb'].
Qed.

(** X3.  A [steamvr] object that is used through its member functions only
    ([start_tracker], [data], [center], in any order and any number of
    times, with enumerations by the dialog in between) never calls through
    a null handle, in whatever state of the process it was constructed:
    every sequence of uses returns.  [data] reaches [get_pose] only after a
    [start_tracker] that saw a handle that is not null. *)
Theorem tracker_object_never_dereferences_null (setting : string)
    (us : list Use) (w : World) :
  exists this' w', run_uses us (steamvr_new setting) w = Ok this' w'.
Proof.
  assert (G : forall us this w, bound_ok this w ->
              exists this' w', run_uses us this w = Ok this' w').
  { clear. induction us as [|u us IH]; intros this w Hb.
    - exists this, w. reflexivity.
    - destruct (run_use_life u this w Hb) as (this1 & w1 & H1 & Hb1).
      destruct (IH this1 w1 Hb1) as (this2 & w2 & H2).
      exists this2, w2. cbn [run_uses]. unfold bind. rewrite H1. exact H2. }
  apply G. left. reflexivity.
Qed.

End Tracker_life.

(* ===================================================================== *)
(** ** Starting the tracker: the edges, and what a bound index is *)

Section Start_edges.
Context {FA : FloatArith} {EX : Extern}.

(** X5.  When the enumeration is empty (the handle is not null and no slot
    passes the tests), [start_tracker] shows "No HMD connected" and
    returns before it touches [device_index]: the object is as it was,
    also when it held an index from before. *)
Theorem start_tracker_no_device (this : steamvr) (w w1 : World) (e : error_t) :
  vr_init w = Ok (IVRSystem_ptr, e) w1 ->
  filter (slot_listed (hw w)) (seq 0 max_devices) = [] ->
  exists w2 w',
    fill_device_specs [] w1 = Ok [] w2
    /\ start_tracker this w = Ok this w'
    /\ trace w' = (trace w2 ++ [no_hmd_connected])%list.
Proof.
  intros Hinit Hnone.
  pose proof (vr_init_again w w1 _ Hinit) as Hinit1.
  destruct (fill_device_specs_good [] w1 w1 e Hinit1) as (w2 & Hfill & _).
  rewrite (vr_init_hw _ _ _ Hinit), Hnone in Hfill. cbn [map] in Hfill.
  exists w2. eexists. split; [exact Hfill|].
  unfold start_tracker, with_vr_lock, bind. rewrite Hinit. cbn.
  unfold device_list_new, refresh_device_list, bind. cbn.
  rewrite Hfill. cbn. split; reflexivity.
Qed.

Lemma select_device_result (serial : string) (specs : list device_spec) (i : Z) :
  select_device serial specs i = i
  \/ exists d,
       In d specs
       /\ (serial = "" \/ to_string d = serial)
       /\ select_device serial specs i = int_of_unsigned (k d).
Proof.
  induction specs as [|x specs IH]; cbn; [left; reflexivity|].
  destruct (serial =? "")%string eqn:E0; cbn.
  - right. exists x. apply String.eqb_eq in E0. auto.
  - destruct (serial =? to_string x)%string eqn:E1.
    + right. exists x. apply String.eqb_eq in E1. auto.
    + destruct IH as [IH|(d & Hin & Hd & IH)]; [left; exact IH|].
      right. exists d. auto.
Qed.

Lemma in_listed (h : Hardware) (d : device_spec) :
  In d (map (listed_spec h) (filter (slot_listed h) (seq 0 max_devices))) ->
  exists slot,
    (slot < max_devices)%nat /\ slot_listed h slot = true /\ d = listed_spec h slot.
Proof.
  intros Hin. apply in_map_iff in Hin. destruct Hin as (slot & <- & Hin).
  apply filter_In in Hin. destruct Hin as [Hin Hl].
  apply in_seq in Hin. exists slot. repeat split; [lia | exact Hl].
Qed.

(** X7.  Whatever the handle and the runtime, a tracker that starts
    unbound is afterwards unbound or bound to a slot that the enumeration
    listed: a slot below [max_devices] that passes the tests and whose
    identity string is the setting, unless the setting is empty.  It is
    never bound to a slot that was not listed.  The slot count fits
    [int]. *)
Theorem start_tracker_binds_listed_slot (this this' : steamvr) (w w' : World) :
  Z.of_nat max_devices <= 2 ^ 31 ->
  device_index this = -1 ->
  start_tracker this w = Ok this' w' ->
  device_index this' = -1
  \/ exists slot,
       (slot < max_devices)%nat
       /\ slot_listed (hw w) slot = true
       /\ device_index this' = Z.of_nat slot
       /\ (s_device_serial this = ""
           \/ to_string (listed_spec (hw w) slot) = s_device_serial this).
Proof.
  intros Hmax Hun Hrun.
  destruct (vr_init_total w) as ([vh e] & w1 & Hinit & _).
  destruct vh.
  - left. unfold start_tracker, with_vr_lock, bind in Hrun.
    rewrite Hinit in Hrun. cbn in Hrun. injection Hrun as <- _. exact Hun.
  - pose proof (vr_init_again w w1 _ Hinit) as Hinit1.
    destruct (fill_device_specs_good [] w1 w1 e Hinit1) as (w2 & Hfill & _).
    rewrite (vr_init_hw _ _ _ Hinit) in Hfill.
    set (specs := map (listed_spec (hw w))
                      (filter (slot_listed (hw w)) (seq 0 max_devices))) in *.
    destruct specs as [|first rest] eqn:Hspecs.
    + left. unfold start_tracker, with_vr_lock, bind in Hrun.
      rewrite Hinit in Hrun. cbn in Hrun.
      unfold device_list_new, refresh_device_list, bind in Hrun. cbn in Hrun.
      rewrite Hfill in Hrun. cbn in Hrun. injection Hrun as <- _. exact Hun.
    + pose proof (start_tracker_selecting this w w1 w2 e (first :: rest) Hinit Hfill
                    ltac:(discriminate)) as Hsel.
      cbn zeta in Hsel. rewrite Hrun in Hsel.
      assert (Hidx : device_index this'
                     = select_device (s_device_serial this) (first :: rest) (-1)).
      { destruct (select_device (s_device_serial this) (first :: rest) (-1) =? -1);
          injection Hsel as -> _; reflexivity. }
      destruct (select_device_result (s_device_serial this) (first :: rest) (-1))
        as [Hd|(d & Hin & Hd & Hres)]; [left; congruence|].
      right. rewrite <- Hspecs in Hin. apply in_listed in Hin.
      destruct Hin as (slot & Hlt & Hl & ->).
      exists slot. repeat split; try assumption.
      rewrite Hidx, Hres. cbn [k listed_spec].
      unfold int_of_unsigned. rewrite Z.mod_small by lia.
      destruct (Z.of_nat slot <? 2 ^ 31) eqn:E; [reflexivity|].
      apply Z.ltb_ge in E. lia.
Qed.

(** X8.  A device that the enumeration lists is connected, so a sample of
    its slot through the same handle, with the runtime as it was, is valid
    exactly when the runtime reports the pose itself as valid; and the
    pose stored in the entry is the one the sample returns. *)
Theorem listed_slot_sample (slot : nat) (w w1 : World) (e : error_t) :
  vr_init w = Ok (IVRSystem_ptr, e) w1 ->
  (slot < max_devices)%nat ->
  slot_listed (hw w) slot = true ->
  exists p w',
    get_pose (Z.of_nat slot) w = Ok (bPoseIsValid (pose (listed_spec (hw w) slot)), p) w'
    /\ (bPoseIsValid (pose (listed_spec (hw w) slot)) = true ->
        p = pose (listed_spec (hw w) slot)).
Proof.
  intros Hinit Hlt Hl.
  assert (Hk : 0 <= Z.of_nat slot < Z.of_nat max_devices) by lia.
  pose proof (get_pose_good_handle _ w w1 e Hk Hinit) as G. cbn zeta in G.
  unfold reported_pose in G. rewrite Nat2Z.id in G.
  unfold slot_listed in Hl. rewrite !andb_true_iff in Hl.
  destruct Hl as [[[_ Hc] _] _]. rewrite Hc, andb_true_r in G.
  cbn [pose listed_spec].
  destruct (bPoseIsValid (hw_pose (hw w) TrackingUniverseSeated slot)).
  - eexists; eexists. split; [exact G | reflexivity].
  - destruct G as [w' G]. eexists; eexists. split; [exact G | discriminate].
Qed.

End Start_edges.

(* ===================================================================== *)
(** ** The settings dialog and the tracker *)

Section Dialog.
Context {FA : FloatArith} {EX : Extern}.

Lemma dialog_items_of (specs : list device_spec) (items : list (string * string)) :
  fold_left
    (fun items spec => (items ++ [(to_string spec, to_string spec)])%list)
    specs items
  = (items ++ map (fun spec => (to_string spec, to_string spec)) specs)%list.
Proof.
  revert items. induction specs as [|x specs IH]; intros items; cbn.
  - symmetry. apply app_nil_r.
  - rewrite IH, <- app_assoc. reflexivity.
Qed.

Lemma first_with_string (s : string) (specs : list device_spec) :
  In s (map to_string specs) ->
  exists pre d post,
    specs = (pre ++ d :: post)%list
    /\ Forall (fun x => to_string x <> s) pre
    /\ to_string d = s.
Proof.
  induction specs as [|x specs IH]; cbn; [contradiction|].
  intros Hin. destruct (string_dec (to_string x) s) as [Hx|Hx].
  - exists [], x, specs. repeat split; [constructor | exact Hx].
  - destruct Hin as [Hin|Hin]; [contradiction|].
    destruct (IH Hin) as (pre & d & post & -> & Hpre & Hd).
    exists (x :: pre), d, post. repeat split; [|exact Hd].
    constructor; assumption.
Qed.

(** An operation under the lock behaves from the state before the first
    initialisation as it does from the state after it. *)
Lemma with_vr_lock_after_init {R} (f : vr_t -> error_t -> M R) (w w0 : World)
    (t : tt_t) :
  vr_init w = Ok t w0 -> with_vr_lock f w = with_vr_lock f w0.
Proof.
  intros Hinit. unfold with_vr_lock, bind.
  rewrite Hinit, (vr_init_again _ _ _ Hinit). reflexivity.
Qed.

(** X9.  Every item that the dialog offers besides "First available"
    carries as its data the identity string of a listed device, and a
    tracker whose setting is that data, started in the state the dialog
    left, is bound to a listed slot with that identity string: what the
    user picks in the list is what [start_tracker] finds. *)
Theorem dialog_choice_is_bound (this : steamvr) (w w1 : World)
    (items : list (string * string)) (text dat : string) :
  steamvr_dialog_new w = Ok items w1 ->
  In (text, dat) items ->
  dat <> "" ->
  s_device_serial this = dat ->
  exists this' w2 slot,
    start_tracker this w1 = Ok this' w2
    /\ (slot < max_devices)%nat
    /\ slot_listed (hw w) slot = true
    /\ to_string (listed_spec (hw w) slot) = dat
    /\ text = dat
    /\ device_index this' = int_of_unsigned (Z.of_nat slot).
Proof.
  intros Hdlg Hin Hne Hset.
  destruct (vr_init_total w) as ([vh e] & w0 & Hinit & _).
  unfold steamvr_dialog_new, device_list_new, refresh_device_list, bind in Hdlg.
  cbn in Hdlg.
  destruct vh.
  - rewrite (fill_device_specs_null [] w w0 e Hinit) in Hdlg. cbn in Hdlg.
    injection Hdlg as <- _. destruct Hin as [Hin|[]].
    injection Hin as _ <-. contradiction.
  - destruct (fill_device_specs_good [] w w0 e Hinit) as (w1' & Hfill & Hhw).
    assert (Hstatic : vr_init_t w1' = Some (IVRSystem_ptr, e)).
    { eapply (static_after_fill _ [] _ w0 w1' (static_after_vr_init _ _ _ Hinit)).
      unfold fill_device_specs in *.
      rewrite <- (with_vr_lock_after_init _ w w0 _ Hinit). exact Hfill. }
    rewrite Hfill in Hdlg. cbn in Hdlg. unfold ret in Hdlg.
    injection Hdlg as <- <-.
    set (specs := map (listed_spec (hw w))
                      (filter (slot_listed (hw w)) (seq 0 max_devices))) in *.
    rewrite dialog_items_of in Hin. cbn in Hin.
    destruct Hin as [Hin|Hin]; [injection Hin as _ <-; contradiction|].
    apply in_map_iff in Hin. destruct Hin as (spec & Hspec & Hin).
    injection Hspec as <- Hdat.
    assert (Hs : In dat (map to_string specs))
      by (apply in_map_iff; exists spec; auto).
    destruct (first_with_string dat specs Hs) as (pre & d & post & Hsplit & Hpre & Hd).
    pose proof (vr_init_cached _ _ Hstatic) as Hinit1.
    destruct (fill_device_specs_good [] w1' w1' e Hinit1) as (w2 & Hfill2 & _).
    rewrite Hhw in Hfill2. fold specs in Hfill2.
    assert (Hnonempty : specs <> []) by (rewrite Hsplit; destruct pre; discriminate).
    pose proof (start_tracker_selecting this w1' w1' w2 e specs Hinit1 Hfill2 Hnonempty)
      as Hsel.
    cbn zeta in Hsel. rewrite Hset in Hsel.
    assert (Hsd : select_device dat specs (-1) = int_of_unsigned (k d)).
    { rewrite Hsplit. apply select_device_first_match; assumption. }
    rewrite Hsd in Hsel.
    assert (Hind : In d specs) by (rewrite Hsplit; apply in_elt).
    apply in_listed in Hind. destruct Hind as (slot & Hlt & Hl & ->).
    cbn [k listed_spec] in Hsel.
    destruct (int_of_unsigned (Z.of_nat slot) =? -1);
      eexists; eexists; exists slot; (split; [exact Hsel|]); auto.
Qed.

End Dialog.

(* ===================================================================== *)
(** ** The pose transform over the real numbers: angles come back *)

Section Euler_round_trip.

Lemma atan2_of_angle (a x : R) :
  (0 < a)%R -> (- (PI / 2) < x < PI / 2)%R ->
  atan2 (a * sin x) (a * cos x) = x.
Proof.
  intros Ha Hx.
  assert (Hc : (0 < cos x)%R) by (apply cos_gt_0; tauto).
  unfold atan2.
  destruct (Rlt_dec 0 (a * cos x)) as [_|Hn].
  - replace (a * sin x / (a * cos x))%R with (tan x).
    + apply atan_tan. exact Hx.
    + unfold tan. field. split; apply Rgt_not_eq; assumption.
  - exfalso. apply Hn. apply Rmult_lt_0_compat; assumption.
Qed.

(** X10.  In exact real arithmetic [matrix_to_euler] undoes the
    composition of a rotation from its angles: for yaw, pitch and roll
    strictly between -pi/2 and pi/2, the matrix [Rz roll * Ry yaw * Rx
    pitch] is taken back to (yaw, pitch, roll).  The sign and axis
    conventions of the three formulas fit one another. *)
Theorem matrix_to_euler_recovers_angles (y p r : R) :
  (- (PI / 2) < y < PI / 2)%R ->
  (- (PI / 2) < p < PI / 2)%R ->
  (- (PI / 2) < r < PI / 2)%R ->
  @matrix_to_euler real_arith (euler_matrix y p r) = (y, p, r).
Proof.
  intros Hy Hp Hr.
  assert (Hcy : (0 < cos y)%R) by (apply cos_gt_0; tauto).
  unfold matrix_to_euler. cbn.
  assert (Hroot : sqrt (cos y * sin p * (cos y * sin p)
                        + cos y * cos p * (cos y * cos p)) = cos y).
  { replace (cos y * sin p * (cos y * sin p) + cos y * cos p * (cos y * cos p))%R
      with (cos y * cos y * (Rsqr (sin p) + Rsqr (cos p)))%R
      by (unfold Rsqr; ring).
    rewrite sin2_cos2, Rmult_1_r. apply sqrt_square. lra. }
  rewrite Hroot, Ropp_involutive.
  replace (atan2 (sin y) (cos y)) with y.
  2:{ rewrite <- (atan2_of_angle 1 y Rlt_0_1 Hy) at 1.
      rewrite !Rmult_1_l. reflexivity. }
  rewrite (atan2_of_angle (cos y) p Hcy Hp).
  replace (atan2 (sin r * cos y) (cos r * cos y)) with r.
  2:{ rewrite <- (atan2_of_angle (cos y) r Hcy Hr) at 1.
      rewrite (Rmult_comm (sin r)), (Rmult_comm (cos r)). reflexivity. }
  reflexivity.
Qed.

(** Yaw of 45 degrees, pitch of 22.5 degrees and no roll. *)
Lemma matrix_to_euler_recovers_angles_witness :
  @matrix_to_euler real_arith (euler_matrix (PI / 4) (PI / 8) 0)
  = ((PI / 4)%R, (PI / 8)%R, 0%R).
Proof.
  apply (matrix_to_euler_recovers_angles (PI / 4) (PI / 8) 0);
    pose proof PI_RGT_0; split; lra.
Defined.

End Euler_round_trip.

(* ===================================================================== *)
(** ** The receiver of key events (Windows build) *)

Lemma in_firstn {A} (n : nat) (l : list A) (x : A) :
  In x (firstn n l) -> In x l.
Proof.
  revert l. induction n as [|n IH]; intros [|y l]; cbn; try contradiction.
  intros [H|H]; [left; exact H | right; apply IH; exact H].
Qed.

Section Receiver_facts.
Import Shortcuts.
Variable Act : Type.
Variable Timers : Type.
Variable should_process : nat -> Key -> Timers -> bool * Timers.

Lemma receiver_step_no_match (k : Key) (i : nat) (entry : Key * fun_t Act * bool)
    (st : list Act * Timers) :
  key_matches k (fst (fst entry)) = false ->
  receiver_step should_process k i entry st = st.
Proof.
  destruct entry as [[k_ f] h]. unfold key_matches, receiver_step. cbn [fst].
  destruct (Key_guid k =? Key_guid k_)%string; cbn; [|reflexivity].
  destruct (Key_keycode k =? Key_keycode k_); cbn; [|reflexivity].
  destruct (Key_held k_ && negb (Key_held k)); cbn; [reflexivity|].
  destruct (Bool.eqb (Key_alt k_) (Key_alt k)); cbn; [|reflexivity].
  destruct (Bool.eqb (Key_ctrl k_) (Key_ctrl k)); cbn; [|reflexivity].
  destruct (Bool.eqb (Key_shift k_) (Key_shift k)); cbn; [|reflexivity].
  discriminate.
Qed.

Lemma receiver_step_match (k : Key) (i : nat) (entry : Key * fun_t Act * bool)
    (st : list Act * Timers) :
  key_matches k (fst (fst entry)) = true ->
  receiver_step should_process k i entry st
  = let '(ok, t) := should_process i (fst (fst entry)) (snd st) in
    if ok then ((fst st ++ [snd (fst entry) (Key_held k)])%list, t)
    else (fst st, t).
Proof.
  destruct entry as [[k_ f] h]. unfold key_matches, receiver_step. cbn [fst snd].
  destruct (Key_guid k =? Key_guid k_)%string; cbn; [|discriminate].
  destruct (Key_keycode k =? Key_keycode k_); cbn; [|discriminate].
  destruct (Key_held k_ && negb (Key_held k)); cbn; [discriminate|].
  destruct (Bool.eqb (Key_alt k_) (Key_alt k)); cbn; [|discriminate].
  destruct (Bool.eqb (Key_ctrl k_) (Key_ctrl k)); cbn; [|discriminate].
  destruct (Bool.eqb (Key_shift k_) (Key_shift k)); cbn; [|discriminate].
  intros _. destruct (should_process i k_ (snd st)) as [[|] t]; reflexivity.
Qed.

Lemma receiver_from_sound (k : Key) (keys entries : list (Key * fun_t Act * bool)) :
  incl entries keys ->
  forall i st,
    Forall (fired_by k keys) (fst st) ->
    Forall (fired_by k keys) (fst (receiver_from should_process k i entries st)).
Proof.
  induction entries as [|entry entries IH]; intros Hincl i st Hst; cbn.
  - exact Hst.
  - apply IH; [intros x Hx; apply Hincl; right; exact Hx|].
    destruct (key_matches k (fst (fst entry))) eqn:E.
    + rewrite (receiver_step_match k i entry st E).
      destruct (should_process i (fst (fst entry)) (snd st)) as [[|] t]; cbn;
        [|exact Hst].
      apply Forall_app. split; [exact Hst|].
      constructor; [|constructor].
      exists entry. repeat split; [apply Hincl; left; reflexivity | exact E].
    + rewrite (receiver_step_no_match k i entry st E). exact Hst.
Qed.

(** X13.  Every call that [receiver] makes for a key event is the call of
    the handler of an entry of the table that passes the six tests
    against the event (same guid and key code, same Ctrl, Alt and Shift,
    and not a release for a binding that wants the key held), with the
    event's [held] flag as argument; whatever [should_process] answers. *)
Theorem receiver_calls_only_matching (k : Key) (keys : list (Key * fun_t Act * bool)) (t : Timers) :
  Forall (fired_by k keys) (fst (receiver should_process k keys t)).
Proof.
  unfold receiver. apply receiver_from_sound.
  - intros x Hx. eapply in_firstn. exact Hx.
  - constructor.
Qed.

Lemma receiver_from_no_match (k : Key) (entries : list (Key * fun_t Act * bool)) :
  Forall (fun entry => key_matches k (fst (fst entry)) = false) entries ->
  forall i st, receiver_from should_process k i entries st = st.
Proof.
  induction 1 as [|entry entries He _ IH]; intros i st; cbn; [reflexivity|].
  rewrite (receiver_step_no_match k i entry st He). apply IH.
Qed.

(** X14.  A key event that no entry of the table matches calls no
    handler, and no key's [should_process] is consulted: the timers are
    as they were. *)
Theorem receiver_unbound_key (k : Key) (keys : list (Key * fun_t Act * bool)) (t : Timers) :
  Forall (fun entry => key_matches k (fst (fst entry)) = false) keys ->
  receiver should_process k keys t = ([], t).
Proof.
  intros H. unfold receiver. apply receiver_from_no_match.
  apply Forall_forall. intros x Hx.
  apply (proj1 (Forall_forall _ _) H). eapply in_firstn. exact Hx.
Qed.

Lemma receiver_from_all (k : Key) (entries : list (Key * fun_t Act * bool)) :
  (forall i key t, fst (should_process i key t) = true) ->
  forall i st,
    fst (receiver_from should_process k i entries st)
    = (fst st
       ++ map (fun entry => snd (fst entry) (Key_held k))
              (filter (fun entry => key_matches k (fst (fst entry))) entries))%list.
Proof.
  intros Hyes. induction entries as [|entry entries IH]; intros i st; cbn.
  - symmetry. apply app_nil_r.
  - rewrite IH. destruct (key_matches k (fst (fst entry))) eqn:E.
    + rewrite (receiver_step_match k i entry st E).
      specialize (Hyes i (fst (fst entry)) (snd st)).
      destruct (should_process i (fst (fst entry)) (snd st)) as [ok t'].
      cbn in Hyes. subst ok. cbn. rewrite <- app_assoc. reflexivity.
    + rewrite (receiver_step_no_match k i entry st E). reflexivity.
Qed.

Variable Key_new : Key.
Variable fromString : string -> Z.
Variable from_qt : Z -> Z -> Z -> Z * Z.

Lemma reload_win32_loop (l : t_keys Act) (s : @State Act (win32 Act Key_new fromString from_qt)) :
  keys (fold_left (@reload_step Act (win32 Act Key_new fromString from_qt)) l s)
  = (keys s ++ map (@win32_entry Act Key_new fromString from_qt) l)%list.
Proof.
  revert s. induction l as [|[[opts f] held] l IH]; intros s; cbn [fold_left map].
  - symmetry. apply app_nil_r.
  - rewrite IH. cbn. rewrite <- app_assoc. reflexivity.
Qed.

Lemma reload_win32_keys (keys_ : t_keys Act) (s : @State Act (win32 Act Key_new fromString from_qt)) :
  Z.of_nat (List.length keys_) < 2 ^ 32 ->
  keys (@reload Act (win32 Act Key_new fromString from_qt) keys_ s) = map (@win32_entry Act Key_new fromString from_qt) keys_.
Proof.
  intros Hsz. unfold reload.
  rewrite (size_as_unsigned_small Act keys_ Hsz), firstn_all.
  rewrite reload_win32_loop. reflexivity.
Qed.

(** X15.  Reload, then an event (Windows build, a table whose size fits
    [unsigned], keys whose [should_process] says yes): the handlers called
    are those of the elements of [keys_] whose options bind to a key that
    matches the event, each called once with the event's [held] flag, in
    the order of [keys_]. *)
Theorem reload_then_receiver (keys_ : t_keys Act) (s : @State Act (win32 Act Key_new fromString from_qt))
    (k : Key) (t : Timers) :
  Z.of_nat (List.length keys_) < 2 ^ 32 ->
  (forall i key t, fst (should_process i key t) = true) ->
  fst (receiver should_process k (keys (@reload Act (win32 Act Key_new fromString from_qt) keys_ s)) t)
  = map (fun kk => snd (fst kk) (Key_held k))
        (filter (fun kk =>
                   key_matches k
                     (bind_shortcut_win32 Key_new fromString from_qt Key_new
                        (fst (fst kk)) (snd kk)))
                keys_).
Proof.
  intros Hsz Hyes. rewrite (reload_win32_keys keys_ s Hsz).
  unfold receiver. rewrite length_map, Z.mod_small, Nat2Z.id, firstn_all2
    by (rewrite ?length_map; lia).
  rewrite (receiver_from_all k _ Hyes). cbn [fst app].
  induction keys_ as [|[[opts f] held] keys_ IH]; cbn; [reflexivity|].
  cbn in Hsz.
  destruct (key_matches k
              (bind_shortcut_win32 Key_new fromString from_qt Key_new opts held));
    cbn; rewrite IH by lia; reflexivity.
Qed.

End Receiver_facts.

(* ===================================================================== *)
(** ** Reload in the builds with [QxtGlobalShortcut] objects *)

Section Unix_facts.
Import Shortcuts.
Variable Act : Type.
Variable new : QxtGlobalShortcut.
Variable unknown_key : string.
Variable fromString : string -> string.
Variable last_owner : nat -> bool.

(** [bind_shortcut] on the null key that [K k;] declares. *)
Lemma bind_shortcut_unix_null (k : key_opts) (held : bool) (h : Heap Act) :
  let r := bind_shortcut_unix new unknown_key fromString last_owner None k held h in
  fst r = Some (next h)
  /\ next (snd r) = S (next h)
  /\ objects (snd r) (next h)
     = Some (if (keycode k =? "")%string then new
             else {| shortcut := fromString (keycode k); enabled := true |})
  /\ (forall q, q <> next h -> objects (snd r) q = objects h q)
  /\ connections (snd r) = connections h
  /\ undefined (snd r) = undefined h.
Proof.
  unfold bind_shortcut_unix, drop_reference, make_shared.
  destruct (keycode k =? "")%string; cbn.
  - rewrite Nat.eqb_refl. repeat split.
    intros q Hq.
    assert (E : Nat.eqb (next h) q = false) by (apply Nat.eqb_neq; congruence).
    rewrite E. reflexivity.
  - unfold modify. cbn. rewrite !Nat.eqb_refl. cbn. rewrite !Nat.eqb_refl.
    repeat split.
    + unfold update. cbn. rewrite Nat.eqb_refl. reflexivity.
    + intros q Hq.
      assert (E : Nat.eqb (next h) q = false) by (apply Nat.eqb_neq; congruence).
      unfold update. cbn. rewrite !E. reflexivity.
Qed.

(** While the vector holds at most 2^31 entries, [idx] is the index of
    the entry that [push_back] added. *)
Lemma last_index_small (ks : list (option nat * fun_t Act * bool))
    (e : option nat * fun_t Act * bool) :
  Z.of_nat (List.length ks) < 2 ^ 31 ->
  last_index (ks ++ [e]) = Z.of_nat (List.length ks).
Proof.
  intros H. unfold last_index, int_of_unsigned.
  rewrite length_app. cbn [List.length].
  replace (Z.of_nat (List.length ks + 1) - 1) with (Z.of_nat (List.length ks))
    by lia.
  rewrite Z.mod_small by lia.
  destruct (Z.ltb_spec (Z.of_nat (List.length ks)) (2 ^ 31)); [reflexivity | lia].
Qed.

(** Beyond that, [idx] is negative. *)
Lemma last_index_large (ks : list (option nat * fun_t Act * bool))
    (e : option nat * fun_t Act * bool) :
  2 ^ 31 <= Z.of_nat (List.length ks) < 2 ^ 32 ->
  last_index (ks ++ [e]) < 0.
Proof.
  intros H. unfold last_index, int_of_unsigned.
  rewrite length_app. cbn [List.length].
  replace (Z.of_nat (List.length ks + 1) - 1) with (Z.of_nat (List.length ks))
    by lia.
  rewrite Z.mod_small by lia.
  destruct (Z.ltb_spec (Z.of_nat (List.length ks)) (2 ^ 31)); lia.
Qed.

(** The handler that is connected is the one just stored. *)
Lemma connect_activated_last (ks : list (option nat * fun_t Act * bool))
    (k : option nat) (f : fun_t Act) (held : bool) (p : nat) (h : Heap Act) :
  Z.of_nat (List.length ks) < 2 ^ 31 ->
  connect_activated (ks ++ [(k, f, held)]) (Some p) h
  = {| objects := objects h; next := next h;
       connections := (connections h ++ [(p, fun _ : unit => f true)])%list;
       undefined := undefined h |}.
Proof.
  intros H. unfold connect_activated.
  rewrite (last_index_small ks (k, f, held) H).
  destruct (Z.leb_spec 0 (Z.of_nat (List.length ks))); [|lia].
  rewrite Nat2Z.id, nth_error_app2, Nat.sub_diag by lia.
  reflexivity.
Qed.

(** The read out of bounds, when the vector has grown beyond 2^31
    entries. *)
Lemma connect_activated_out_of_bounds
    (ks : list (option nat * fun_t Act * bool))
    (e : option nat * fun_t Act * bool) (k : option nat) (h : Heap Act) :
  2 ^ 31 <= Z.of_nat (List.length ks) < 2 ^ 32 ->
  undefined (connect_activated (ks ++ [e]) k h) = true.
Proof.
  intros H. unfold connect_activated.
  pose proof (last_index_large ks e H) as Hneg.
  destruct (Z.leb_spec 0 (last_index (ks ++ [e]))); [lia | reflexivity].
Qed.

(** Whatever the vector is, the statements after [push_back] touch no
    object, and connect nothing but [k]. *)
Lemma connect_activated_frame (ks : list (option nat * fun_t Act * bool))
    (p : nat) (h : Heap Act) :
  objects (connect_activated ks (Some p) h) = objects h
  /\ next (connect_activated ks (Some p) h) = next h
  /\ forall q, In q (map fst (connections (connect_activated ks (Some p) h))) ->
               In q (map fst (connections h)) \/ q = p.
Proof.
  unfold connect_activated.
  destruct (if 0 <=? last_index ks then nth_error ks (Z.to_nat (last_index ks))
            else None) as [kk_|]; cbn.
  - repeat split. intros q Hq. rewrite map_app in Hq. apply in_app_or in Hq.
    destruct Hq as [Hq|[Hq|[]]]; [left; exact Hq | right; symmetry; exact Hq].
  - repeat split. intros q Hq. left. exact Hq.
Qed.

Lemma unix_step (s : @State Act (unix Act new unknown_key fromString last_owner))
    (kk : key_opts * fun_t Act * bool) :
  let s' := @reload_step Act (unix Act new unknown_key fromString last_owner) s kk in
  keys s' = (keys s ++ [(Some (next (outside s)),
                         (fun _ : bool => snd (fst kk) true), snd kk)])%list
  /\ next (outside s') = S (next (outside s))
  /\ objects (outside s') (next (outside s)) = Some (unix_object new fromString kk)
  /\ (forall q, q <> next (outside s) ->
                objects (outside s') q = objects (outside s) q)
  /\ (forall q, In q (map fst (connections (outside s'))) ->
                In q (map fst (connections (outside s))) \/ q = next (outside s))
  /\ (Z.of_nat (List.length (keys s)) < 2 ^ 31 ->
      connections (outside s')
      = (connections (outside s)
         ++ [(next (outside s), fun _ : unit => snd (fst kk) true)])%list
      /\ undefined (outside s') = undefined (outside s)).
Proof.
  destruct kk as [[opts f] held]. destruct s as [ks h].
  unfold reload_step, unix_object.
  cbn [bind_shortcut stored_fun after_push K_new unix keys outside fst snd].
  destruct (bind_shortcut_unix_null opts held h) as (Hk & Hn & Ho & Hother & Hc & Hu).
  cbn zeta in *.
  destruct (bind_shortcut_unix new unknown_key fromString last_owner None opts held h)
    as [k o]. cbn [fst snd] in *. subst k.
  cbn [keys outside].
  destruct (connect_activated_frame
              (ks ++ [(Some (next h), fun _ : bool => f true, held)]) (next h) o)
    as (Fo & Fn & Fc).
  split; [reflexivity|]. split; [exact (eq_trans Fn Hn)|].
  split; [exact (eq_trans (f_equal (fun g => g (next h)) Fo) Ho)|].
  split; [intros q Hq;
          exact (eq_trans (f_equal (fun g => g q) Fo) (Hother q Hq))|].
  split.
  - intros q Hq. rewrite <- Hc. apply Fc. exact Hq.
  - intros Hsz.
    pose proof (connect_activated_last ks (Some (next h))
                  (fun _ : bool => f true) held (next h) o Hsz) as E.
    split.
    + exact (eq_trans (f_equal (@connections Act) E)
                      (f_equal (fun c => (c ++ [(next h, fun _ : unit => f true)])%list)
                               Hc)).
    + exact (eq_trans (f_equal (@undefined Act) E) Hu).
Qed.

Lemma unix_loop (l : t_keys Act) :
  forall s : @State Act (unix Act new unknown_key fromString last_owner),
  let s' := fold_left (@reload_step Act (unix Act new unknown_key fromString
                                           last_owner)) l s in
  keys s' = (keys s ++ unix_entries (next (outside s)) l)%list
  /\ next (outside s') = (next (outside s) + List.length l)%nat
  /\ (forall i kk, nth_error l i = Some kk ->
        objects (outside s') (next (outside s) + i)
        = Some (unix_object new fromString kk))
  /\ (forall q, (q < next (outside s))%nat ->
        objects (outside s') q = objects (outside s) q)
  /\ (forall q, In q (map fst (connections (outside s'))) ->
        In q (map fst (connections (outside s)))
        \/ (next (outside s) <= q)%nat).
Proof.
  induction l as [|kk l IH]; intros s; cbn [fold_left].
  - cbn. rewrite !app_nil_r, Nat.add_0_r. repeat split.
    + intros i kk H. destruct i; discriminate.
    + intros q Hq. left. exact Hq.
  - destruct (unix_step s kk) as (Hk & Hn & Ho & Hother & Hc & _).
    destruct (IH (@reload_step Act (unix Act new unknown_key fromString last_owner)
                    s kk))
      as (Hk' & Hn' & Ho' & Hother' & Hc').
    cbn zeta in *. rewrite Hn in *. split; [|split; [|split; [|split]]].
    + rewrite Hk', Hk, <- app_assoc. destruct kk as [[opts f] held]. reflexivity.
    + rewrite Hn'. cbn. lia.
    + intros i kk' Hi. destruct i as [|i]; cbn in Hi.
      * injection Hi as <-. rewrite Nat.add_0_r.
        rewrite Hother' by lia. exact Ho.
      * replace (next (outside s) + S i)%nat with (S (next (outside s)) + i)%nat
          by lia.
        apply Ho'. exact Hi.
    + intros q Hq. rewrite Hother' by lia. apply Hother. lia.
    + intros q Hq. destruct (Hc' q Hq) as [H|H].
      * destruct (Hc q H) as [H'|H']; [left; exact H' | right; lia].
      * right. lia.
Qed.

(** The loop while the vector stays within 2^31 entries: every round
    connects the object it made to the handler it stored, and no read
    leaves the vector. *)
Lemma unix_loop_connections (l : t_keys Act) :
  forall s : @State Act (unix Act new unknown_key fromString last_owner),
  Z.of_nat (List.length (keys s) + List.length l) <= 2 ^ 31 ->
  let s' := fold_left (@reload_step Act (unix Act new unknown_key fromString
                                           last_owner)) l s in
  connections (outside s')
  = (connections (outside s) ++ unix_connections (next (outside s)) l)%list
  /\ undefined (outside s') = undefined (outside s).
Proof.
  induction l as [|kk l IH]; intros s Hsz; cbn [fold_left].
  - cbn. rewrite app_nil_r. split; reflexivity.
  - cbn [List.length] in Hsz.
    destruct (unix_step s kk) as (Hk & Hn & _ & _ & _ & Hc).
    destruct Hc as [Hc Hu]; [lia|].
    destruct (IH (@reload_step Act (unix Act new unknown_key fromString last_owner)
                    s kk)) as [Hc' Hu'].
    { cbn zeta in Hk. rewrite Hk, length_app. cbn [List.length]. lia. }
    cbn zeta in *. rewrite Hc', Hu', Hc, Hu, Hn, <- app_assoc.
    destruct kk as [[opts f] held]. split; reflexivity.
Qed.

Lemma release_unix (key : option nat) (h : Heap Act) :
  next (release key h) = next h
  /\ (forall p, key = Some p ->
        objects (release key h) p = None
        /\ ~ In p (map fst (connections (release key h))))
  /\ (forall p, objects h p = None -> objects (release key h) p = None)
  /\ (forall p, ~ In p (map fst (connections h)) ->
                ~ In p (map fst (connections (release key h))))
  /\ undefined (release key h) = undefined h.
Proof.
  destruct key as [p0|]; cbn.
  - split; [reflexivity|]. split; [|split; [|split; [|reflexivity]]].
    + intros p Hp. injection Hp as <-. split; [rewrite Nat.eqb_refl; reflexivity|].
      intros Hin. apply in_map_iff in Hin.
      destruct Hin as (c & Hc & Hin). apply filter_In in Hin.
      destruct Hin as [_ Hin]. rewrite Hc, Nat.eqb_refl in Hin. discriminate.
    + intros p Hp. destruct (Nat.eqb p0 p); [reflexivity | exact Hp].
    + intros p Hp Hin. apply Hp. apply in_map_iff in Hin.
      destruct Hin as (c & Hc & Hin). apply filter_In in Hin.
      apply in_map_iff. exists c. tauto.
  - split; [reflexivity|]. split; [|split; [|split; [|reflexivity]]]; auto.
    discriminate.
Qed.

Lemma drop_keys_unix (old : list (option nat * fun_t Act * bool)) :
  forall h : Heap Act,
  let h' := @drop_keys Act (unix Act new unknown_key fromString last_owner) old h in
  next h' = next h
  /\ (forall p, In (Some p) (map (fun e => fst (fst e)) old) ->
        objects h' p = None /\ ~ In p (map fst (connections h')))
  /\ (forall p, objects h p = None -> objects h' p = None)
  /\ (forall p, ~ In p (map fst (connections h)) ->
                ~ In p (map fst (connections h')))
  /\ undefined h' = undefined h.
Proof.
  induction old as [|[[key f] held] old IH]; intros h.
  - cbn. split; [reflexivity|]. split; [|split; [|split; [|reflexivity]]]; auto.
    intros p [].
  - change (@drop_keys Act (unix Act new unknown_key fromString last_owner)
              ((key, f, held) :: old) h)
      with (@drop_keys Act (unix Act new unknown_key fromString last_owner) old
              (release key h)).
    cbn [map fst In].
    destruct (release_unix key h) as (Hn1 & Hk1 & Ho1 & Hc1 & Hu1).
    destruct (IH (release key h)) as (Hn & Hold & Ho & Hc & Hu). cbn zeta in *.
    split; [congruence|]. split; [|split; [|split; [|congruence]]].
    + intros p [H|H].
      * destruct (Hk1 p H) as [Hobj Hcon]. split; [apply Ho | apply Hc]; assumption.
      * apply (Hold p H).
    + intros p Hp. apply Ho, Ho1. exact Hp.
    + intros p Hp. apply Hc, Hc1. exact Hp.
Qed.

(** X16.  In the builds with [QxtGlobalShortcut], [reload] of a table of
    at most 2^31 elements, for which [int idx] holds every index of the
    new vector, reads nothing out of bounds and gives every element of
    [keys_] a shortcut object of its own at a fresh address: the keys are
    the consecutive addresses from the next free one on, so they are not
    null and differ from one another; the object of an element is alive,
    carries the key sequence of the element's [keycode] and is enabled,
    or is a new, untouched object when the [keycode] is empty; and after
    the connections that outlive the old table come the new ones, which
    connect the object of each element to a call of the element's own
    handler with [true]. *)
Theorem reload_unix_fresh_objects
    (keys_ : t_keys Act)
    (s : @State Act (unix Act new unknown_key fromString last_owner)) :
  Z.of_nat (List.length keys_) <= 2 ^ 31 ->
  let s' := @reload Act (unix Act new unknown_key fromString last_owner) keys_ s in
  keys s' = unix_entries (next (outside s)) keys_
  /\ next (outside s') = (next (outside s) + List.length keys_)%nat
  /\ (forall i kk, nth_error keys_ i = Some kk ->
        objects (outside s') (next (outside s) + i)
        = Some (unix_object new fromString kk))
  /\ undefined (outside s') = undefined (outside s)
  /\ connections (outside s')
     = (connections (@drop_keys Act (unix Act new unknown_key fromString last_owner)
                       (keys s) (outside s))
        ++ unix_connections (next (outside s)) keys_)%list.
Proof.
  intros Hsz s'. unfold s', reload.
  assert (Hsz' : Z.of_nat (List.length keys_) < 2 ^ 32) by lia.
  rewrite (size_as_unsigned_small Act keys_ Hsz'), firstn_all.
  destruct (drop_keys_unix (keys s) (outside s)) as (Hn & _ & _ & _ & Hu).
  set (s0 := {| keys := []; outside := drop_keys (keys s) (outside s) |}).
  destruct (unix_loop keys_ s0) as (Hk & Hn' & Ho & _).
  destruct (unix_loop_connections keys_ s0) as [Hc Hu'].
  { unfold s0. cbn [keys List.length]. lia. }
  cbn zeta in *. unfold s0 in *. cbn [keys outside app] in *.
  rewrite Hn in *. rewrite Hu in Hu'. repeat split; assumption.
Qed.

(** X17.  In the same builds [reload] leaves no object of the old table
    behind: every shortcut object that an old key pointed to is deleted
    and has no connection left, whatever [keys_] is.  The old keys point
    below the next free address, as keys that [reload] made do. *)
Theorem reload_unix_releases_old
    (keys_ : t_keys Act)
    (s : @State Act (unix Act new unknown_key fromString last_owner))
    (p : nat) :
  Forall (fun e => forall q, fst (fst e) = Some q -> (q < next (outside s))%nat)
         (keys s) ->
  In (Some p) (map (fun e => fst (fst e)) (keys s)) ->
  let s' := @reload Act (unix Act new unknown_key fromString last_owner) keys_ s in
  objects (outside s') p = None
  /\ ~ In p (map fst (connections (outside s'))).
Proof.
  intros Hwf Hin s'. unfold s', reload.
  assert (Hp : (p < next (outside s))%nat).
  { apply in_map_iff in Hin. destruct Hin as (e & He & Hin).
    apply (proj1 (Forall_forall _ _) Hwf e Hin). exact He. }
  destruct (drop_keys_unix (keys s) (outside s)) as (Hn & Hold & _).
  destruct (Hold p Hin) as [Hobj Hcon].
  set (s0 := {| keys := []; outside := drop_keys (keys s) (outside s) |}).
  destruct (unix_loop (firstn (Z.to_nat (size_as_unsigned keys_)) keys_) s0)
    as (_ & _ & _ & Hother & Hc).
  cbn zeta in *. unfold s0 in *. cbn [keys outside] in *. rewrite Hn in *.
  split.
  - rewrite Hother by exact Hp. exact Hobj.
  - intros H. destruct (Hc p H) as [H'|H'].
    + apply Hcon. exact H'.
    + lia.
Qed.

(** X18.  [bind_shortcut] on a key that is already bound (builds with
    [QxtGlobalShortcut]).  [free_binding] disables the old object, takes
    its key sequence away and gives up the key's share of it; the key then
    points to a new object at the next free address, set up from the
    options as in a first binding.  When the key was the last owner of
    the old object, that object is deleted together with its connections.
    When another pointer owns it too, it stays alive, disabled and
    without key sequence, and every connection stays. *)
Theorem bind_shortcut_unix_rebinds (p : nat) (k : key_opts) (held : bool)
    (h : Heap Act) (old : QxtGlobalShortcut) :
  (p < next h)%nat ->
  objects h p = Some old ->
  let r := bind_shortcut_unix new unknown_key fromString last_owner
             (Some p) k held h in
  fst r = Some (next h)
  /\ next (snd r) = S (next h)
  /\ objects (snd r) (next h)
     = Some (if (keycode k =? "")%string then new
             else {| shortcut := fromString (keycode k); enabled := true |})
  /\ undefined (snd r) = undefined h
  /\ if last_owner p
     then objects (snd r) p = None
          /\ connections (snd r)
             = filter (fun c => negb (Nat.eqb (fst c) p)) (connections h)
     else objects (snd r) p = Some {| shortcut := unknown_key; enabled := false |}
          /\ connections (snd r) = connections h.
Proof.
  intros Hp Hold.
  assert (E : Nat.eqb (next h) p = false) by (apply Nat.eqb_neq; lia).
  unfold bind_shortcut_unix, free_binding, drop_reference, modify.
  rewrite Hold. cbn. rewrite !Nat.eqb_refl. cbn.
  destruct (last_owner p); cbn;
    destruct (keycode k =? "")%string; cbn;
    unfold modify, update; cbn; rewrite ?Nat.eqb_refl; cbn;
    rewrite ?Nat.eqb_refl, ?E; cbn; rewrite ?Nat.eqb_refl, ?E;
    repeat split.
Qed.

End Unix_facts.

(* ===================================================================== *)
(** ** Recentring and enumeration: what is called, what is not *)

Section Calls_made.
Context {FA : FloatArith} {EX : Extern}.

(** X11.  [center] calls through the handle exactly when the handle is
    not null, and then exactly once, [ResetSeatedZeroPose]: with a runtime
    the runtime becomes what the reset makes of it, without one it is left
    alone and nothing is called. *)
Theorem center_resets_iff_runtime (this : steamvr) (w : World) :
  exists vh e w1 w',
    vr_init w = Ok (vh, e) w1
    /\ center this w = Ok (true, this) w'
    /\ hw_calls w'
       = (hw_calls w ++ if is_null vh then [] else [Call_ResetSeatedZeroPose])%list
    /\ hw w' = if is_null vh then hw w else hw_reset_seated (hw w).
Proof.
  destruct (vr_init_total w) as ([vh e] & w1 & Hinit & Hhw & _ & _ & Hcalls).
  exists vh, e, w1. unfold center, with_vr_lock, bind. rewrite Hinit.
  destruct vh; cbn.
  - exists w1. rewrite app_nil_r. auto.
  - eexists. split; [reflexivity|]. split; [reflexivity|]. split.
    + unfold hw_calls in *. cbn. rewrite filter_app, Hcalls. reflexivity.
    + cbn. rewrite Hhw. reflexivity.
Qed.

(** X12.  The enumeration returns from every state and its result does
    not depend on what the list held before: the list is cleared first.
    Without a runtime the result is the empty list and nothing is called
    through the handle. *)
Theorem fill_device_specs_clears_and_returns (w : World) :
  exists l w',
    (forall l0, fill_device_specs l0 w = Ok l w')
    /\ (forall e w1, vr_init w = Ok (nullptr, e) w1 -> l = [] /\ w' = w1).
Proof.
  destruct (vr_init_total w) as ([vh e] & w1 & Hinit & _).
  destruct vh.
  - exists [], w1. split.
    + intros l0. unfold fill_device_specs, with_vr_lock, bind.
      rewrite Hinit. reflexivity.
    + intros e' w1' H. rewrite Hinit in H. injection H as _ <-. auto.
  - destruct (fill_device_specs_good [] w w1 e Hinit) as (w' & Hrun & _).
    eexists; exists w'. split.
    + intros l0. rewrite <- Hrun. reflexivity.
    + intros e' w1' H. rewrite Hinit in H. discriminate.
Qed.

End Calls_made.

(* ===================================================================== *)
(** ** Concrete runs of the further theorems *)

Section More_runs.

(** No runtime: the message is the runtime's own symbol. *)
Lemma start_tracker_no_runtime_witness :
  exists w',
    @start_tracker real_arith no_runtime controller_wanted desk_start
    = Ok controller_wanted w'
    /\ trace w'
       = (trace (@after_first_init real_arith no_runtime desk_start)
          ++ [MessageBox_warning "SteamVR init error" "VRInitError_Init_HmdNotFound"])%list.
Proof.
  apply (@start_tracker_no_runtime real_arith no_runtime controller_wanted
           desk_start (@after_first_init real_arith no_runtime desk_start) 108).
  reflexivity.
Defined.

(** An empty room: the stale index 3 stays. *)
Lemma start_tracker_no_device_witness :
  exists w2 w',
    @fill_device_specs real_arith with_runtime []
      (@after_first_init real_arith with_runtime (process_start empty_room))
    = Ok [] w2
    /\ @start_tracker real_arith with_runtime stale_tracker (process_start empty_room)
       = Ok stale_tracker w'
    /\ trace w' = (trace w2 ++ [@no_hmd_connected real_arith with_runtime])%list.
Proof.
  apply (@start_tracker_no_device real_arith with_runtime stale_tracker
           (process_start empty_room)
           (@after_first_init real_arith with_runtime (process_start empty_room))
           VRInitError_None).
  - reflexivity.
  - reflexivity.
Defined.

(** "First available" on [desk] is the headset of slot 0. *)
Lemma start_tracker_first_available_witness :
  exists specs w2,
    @fill_device_specs real_arith with_runtime [] desk_ready = Ok specs w2
    /\ @start_tracker real_arith with_runtime (steamvr_new "") desk_start
       = Ok {| device_index := 0; s_device_serial := "" |} w2.
Proof.
  apply (@start_tracker_first_available real_arith with_runtime (steamvr_new "")
           desk_start desk_ready VRInitError_None 0%nat [1%nat]).
  - cbn. lia.
  - reflexivity.
  - reflexivity.
  - reflexivity.
Defined.

(** The tracker that asks for the controller ends on slot 1. *)
Lemma start_tracker_binds_listed_slot_witness :
  exists this' w',
    @start_tracker real_arith with_runtime controller_wanted desk_start = Ok this' w'
    /\ (device_index this' = -1
        \/ exists slot,
             (slot < 16)%nat
             /\ slot_listed desk slot = true
             /\ device_index this' = Z.of_nat slot
             /\ (s_device_serial controller_wanted = ""
                 \/ @to_string real_arith with_runtime (listed_spec desk slot)
                    = s_device_serial controller_wanted)).
Proof.
  eexists; eexists. split.
  2:{ eapply (@start_tracker_binds_listed_slot real_arith with_runtime
                controller_wanted _ desk_start _).
      - cbn. lia.
      - reflexivity.
      - cbn. reflexivity. }
  cbn. reflexivity.
Defined.

(** The controller of [desk] is listed, and its pose is not valid. *)
Lemma listed_slot_sample_witness :
  exists p w',
    @get_pose real_arith with_runtime 1 desk_start = Ok (false, p) w'.
Proof.
  destruct (@listed_slot_sample real_arith with_runtime 1%nat desk_start desk_ready
              VRInitError_None) as (p & w' & H & _).
  - reflexivity.
  - cbn. lia.
  - reflexivity.
  - exists p, w'. exact H.
Defined.

(** Picking the headset in the dialog. *)
Lemma dialog_choice_is_bound_witness :
  map snd (fst desk_dialog)
  = [ ""; "<HMD> Vive MV [LHR-1234ABCD]";
      "<Controller> Vive Controller [LHR-FFFF0001]" ]
  /\ exists this' w2,
       @start_tracker real_arith with_runtime headset_wanted (snd desk_dialog)
       = Ok this' w2
       /\ device_index this' = 0.
Proof.
  split; [unfold desk_dialog; cbn; reflexivity|].
  destruct (@dialog_choice_is_bound real_arith with_runtime headset_wanted
              desk_start (snd desk_dialog) (fst desk_dialog)
              "<HMD> Vive MV [LHR-1234ABCD]" "<HMD> Vive MV [LHR-1234ABCD]")
    as (this' & w2 & slot & Hrun & Hlt & Hl & Hs & _ & Hidx).
  - unfold desk_dialog. cbn. reflexivity.
  - unfold desk_dialog. cbn. right. left. reflexivity.
  - discriminate.
  - reflexivity.
  - exists this', w2. split; [exact Hrun|].
    destruct slot as [|[|slot]].
    + exact Hidx.
    + cbn in Hs. discriminate.
    + cbn in Hl. destruct slot; discriminate.
Defined.

End More_runs.

Section More_reload_runs.
Import Shortcuts.

(** Ctrl+F9 against a table that binds plain F9. *)
Lemma receiver_unbound_key_witness :
  receiver always_process ctrl_f9 f9_table tt = ([], tt).
Proof.
  apply (receiver_unbound_key bool unit always_process ctrl_f9 f9_table tt).
  repeat constructor.
Defined.

(** Button 5 of the joystick with Ctrl: of the two bindings of button 5
    only the one with Ctrl is called. *)
Lemma reload_then_receiver_witness :
  fst (receiver always_process joy_event
         (keys (@reload bool windows joy_keys
                  (@Build_State bool windows [] tt))) tt)
  = [true].
Proof.
  apply (reload_then_receiver bool unit always_process key_zero
           (fun _ => 0) (fun _ idx mods => (idx, mods))
           joy_keys (@Build_State bool windows [] tt) joy_event tt).
  - cbn. lia.
  - reflexivity.
Defined.

(** The two bindings of [two_keys] over the table [one_binding]. *)
Lemma reload_unix_fresh_objects_witness :
  keys (reload two_keys one_binding)
  = [ (Some 8%nat, (fun _ : bool => toggle true), false);
      (Some 9%nat, (fun _ : bool => untoggle true), true) ]
  /\ next (outside (reload two_keys one_binding)) = 10%nat
  /\ (forall i kk, nth_error two_keys i = Some kk ->
        objects (outside (reload two_keys one_binding)) (8 + i)
        = Some (unix_object {| shortcut := ""; enabled := true |} (fun s => s) kk))
  /\ undefined (outside (reload two_keys one_binding)) = false
  /\ connections (outside (reload two_keys one_binding))
     = [ (8%nat, fun _ : unit => toggle true);
         (9%nat, fun _ : unit => untoggle true) ].
Proof.
  apply (reload_unix_fresh_objects bool {| shortcut := ""; enabled := true |} ""
           (fun s => s) (fun _ => true) two_keys one_binding).
  cbn. lia.
Defined.

(** The object at 7 of [one_binding] is gone after the reload. *)
Lemma reload_unix_releases_old_witness :
  objects (outside (reload two_keys one_binding)) 7 = None
  /\ ~ In 7%nat (map fst (connections (outside (reload two_keys one_binding)))).
Proof.
  apply (reload_unix_releases_old bool {| shortcut := ""; enabled := true |} ""
           (fun s => s) (fun _ => true) two_keys one_binding 7).
  - constructor; [|constructor]. cbn. intros q Hq. injection Hq as <-. lia.
  - left. reflexivity.
Defined.

(** Binding the key that points to 7 anew: as the last owner of the
    object at 7, and with a second owner. *)
Lemma bind_shortcut_unix_rebinds_witness :
  (fst rebound = Some 8%nat
   /\ next (snd rebound) = 9%nat
   /\ objects (snd rebound) 8 = Some {| shortcut := "Ctrl+T"; enabled := true |}
   /\ undefined (snd rebound) = false
   /\ objects (snd rebound) 7 = None
   /\ connections (snd rebound) = [])
  /\ (fst rebound_shared = Some 8%nat
      /\ next (snd rebound_shared) = 9%nat
      /\ objects (snd rebound_shared) 8
         = Some {| shortcut := "Ctrl+T"; enabled := true |}
      /\ undefined (snd rebound_shared) = false
      /\ objects (snd rebound_shared) 7 = Some {| shortcut := ""; enabled := false |}
      /\ connections (snd rebound_shared) = [(7%nat, fun _ : unit => untoggle true)]).
Proof.
  split.
  - apply (bind_shortcut_unix_rebinds bool {| shortcut := ""; enabled := true |} ""
             (fun s => s) (fun _ => true) 7
             {| keycode := "Ctrl+T"; guid := ""; button := 0 |} false
             (outside one_binding) {| shortcut := "Ctrl+U"; enabled := true |}).
    + cbn. lia.
    + reflexivity.
  - apply (bind_shortcut_unix_rebinds bool {| shortcut := ""; enabled := true |} ""
             (fun s => s) (fun q => negb (Nat.eqb q 7)) 7
             {| keycode := "Ctrl+T"; guid := ""; button := 0 |} false
             (outside one_binding) {| shortcut := "Ctrl+U"; enabled := true |}).
    + cbn. lia.
    + reflexivity.
Defined.

End More_reload_runs.
